(** * motion-labs: playback compositor, interaction engine and history manager

    A shallow embedding of [src/utils/history.ts]: the snapshot history
    manager (lines 1-72) and the preview component that follows it in the
    same file (media synchronisation effect, lines 132-256; pointer-driven
    resize, lines 292-382; [renderVisualElement], lines 401-495).

    Conventions.
    - A JavaScript [number] is a rational ([Q]); NaN and the infinities are
      not represented.  The additions and subtractions whose result the code
      compares with a bound (the end of the active window at lines 155, 218,
      240 and 402, the target time and the drift of a handle at lines
      156-157, the elapsed and remaining time at lines 408-409) are rounded
      to binary64 as the engine rounds them, by [Double.add] and
      [Double.sub]; all other arithmetic is exact.
    - An optional property ([volume?: number]) is an [option]; [??] and
      [||] are written out by [nullish] and [or_default].
    - A JavaScript array keeps its order: [push] appends at the end, [pop]
      removes the last entry and [shift] the first.
    - Calls on external primitives (media handles, Web Audio nodes, the
      console) are recorded as a list of [Command]s next to the new state. *)

From Stdlib Require Import QArith Qabs Qminmax Qround Qpower Lqa.
From Stdlib Require Import Ascii DecimalString.
From Stdlib Require PrimFloat SpecFloat FloatOps.
From stdpp Require Import gmap strings list.

Local Open Scope string_scope.
Local Open Scope list_scope.

(* ===================================================================== *)
(** * History manager (lines 1-72) *)
(* ===================================================================== *)

Module History.

Section Manager.

(** [HistoryState] is the interface of lines 4-8; the element, track and
    marker types it lists are imported from [../types].  The manager only
    ever serialises and re-parses a state, so the state type and the two
    JSON built-ins are what this section abstracts over. *)
Variable HistoryState : Type.
Variable JSON_stringify : HistoryState -> string.
Variable JSON_parse : string -> HistoryState.

Definition MAX_HISTORY_SIZE : nat := 50.

Record HistoryManager := mkHistoryManager {
  undoStack : list HistoryState;
  redoStack : list HistoryState;
  lastSavedState : string
}.

(** [new HistoryManager()], and what [clear()] resets to. *)
Definition empty : HistoryManager :=
  {| undoStack := []; redoStack := []; lastSavedState := "" |}.

(** [Array.prototype.pop]: the last entry and the entries before it. *)
Definition Array_pop {A} (l : list A) : option (list A * A) :=
  match reverse l with
  | [] => None
  | x :: r => Some (reverse r, x)
  end.

(** [Array.prototype.shift] as used at line 30: drop the first entry. *)
Definition Array_shift {A} (l : list A) : list A := tail l.

Definition push (h : HistoryManager) (state : HistoryState) : HistoryManager :=
  let stateStr := JSON_stringify state in
  if String.eqb stateStr (lastSavedState h) then h
  else
    let pushed := undoStack h ++ [JSON_parse stateStr] in
    {| undoStack :=
         if Nat.ltb MAX_HISTORY_SIZE (length pushed)
         then Array_shift pushed else pushed;
       redoStack := [];
       lastSavedState := stateStr |}.

Definition undo (h : HistoryManager) (currentState : HistoryState)
  : HistoryManager * option HistoryState :=
  match Array_pop (undoStack h) with
  | None => (h, None)
  | Some (rest, previousState) =>
      ({| undoStack := rest;
          redoStack := redoStack h ++ [JSON_parse (JSON_stringify currentState)];
          lastSavedState := JSON_stringify previousState |},
       Some previousState)
  end.

Definition redo (h : HistoryManager) (currentState : HistoryState)
  : HistoryManager * option HistoryState :=
  match Array_pop (redoStack h) with
  | None => (h, None)
  | Some (rest, nextState) =>
      ({| undoStack := undoStack h ++ [JSON_parse (JSON_stringify currentState)];
          redoStack := rest;
          lastSavedState := JSON_stringify nextState |},
       Some nextState)
  end.

Definition canUndo (h : HistoryManager) : bool :=
  Nat.ltb 0 (length (undoStack h)).

Definition canRedo (h : HistoryManager) : bool :=
  Nat.ltb 0 (length (redoStack h)).

Definition clear (_ : HistoryManager) : HistoryManager := empty.

(** Equality of states as the manager sees it: identical serialisation. *)
Definition same_serialization (a b : HistoryState) : Prop :=
  JSON_stringify a = JSON_stringify b.

End Manager.

Arguments undoStack {HistoryState} _.
Arguments redoStack {HistoryState} _.
Arguments lastSavedState {HistoryState} _.
Arguments empty {HistoryState}.
Arguments mkHistoryManager {HistoryState} _ _ _.

End History.

(* ===================================================================== *)
(** * JavaScript values used by the preview component *)
(* ===================================================================== *)

Local Open Scope Q_scope.

(** [o ?? d]. *)
Definition nullish {A} (o : option A) (d : A) : A :=
  match o with Some v => v | None => d end.

(** [o || d] on an optional number: [undefined] and [0] both give [d]. *)
Definition or_default (o : option Q) (d : Q) : Q :=
  match o with
  | Some v => if Qeq_bool v 0 then d else v
  | None => d
  end.

(** Truthiness of an optional boolean property. *)
Definition truthy (o : option bool) : bool := nullish o false.

(** [a < b] and [a > b] on numbers. *)
Definition Qlt_bool (a b : Q) : bool := negb (Qle_bool b a).
Definition Qgt_bool (a b : Q) : bool := Qlt_bool b a.

(** Binary64 arithmetic, as the engine evaluates [+] and [-] on numbers
    (lines 155-157, 402): the exact result, rounded to the nearest double,
    ties to the even significand.  A double is [m * 2^e] with [m < 2^53]
    and [e >= -1074]; results beyond the largest double (which the engine
    turns into an infinity) are not represented. *)
Module Double.

(** The nearest integer, ties to even. *)
Definition nearest_even (q : Q) : Z :=
  let f := Qfloor q in
  match Qcompare (q - inject_Z f) (1 # 2) with
  | Lt => f
  | Gt => (f + 1)%Z
  | Eq => if Z.even f then f else (f + 1)%Z
  end.

(** [floor (log2 q)] of a positive rational. *)
Definition ilog2 (q : Q) : Z :=
  let e0 := (Z.log2 (Qnum q) - Z.log2 (Zpos (Qden q)))%Z in
  if Qle_bool (2 ^ e0) q then e0 else (e0 - 1)%Z.

(** A positive rational keeps 53 significant bits, fewer below [2^-1022]. *)
Definition round_positive (q : Q) : Q :=
  let e := Z.max (ilog2 q - 52) (-1074) in
  inject_Z (nearest_even (q / 2 ^ e)) * 2 ^ e.

Definition round (q : Q) : Q :=
  let q := Qred q in
  match Qcompare q 0 with
  | Eq => 0
  | Gt => Qred (round_positive q)
  | Lt => Qred (- round_positive (- q))
  end.

(** [a + b] and [a - b]. *)
Definition add (a b : Q) : Q := round (a + b).
Definition sub (a b : Q) : Q := round (a - b).

(** The number a decimal literal of the source ([0.3] at line 157) or of a
    project file ([0.1]) denotes. *)
Definition lit (q : Q) : Q := round q.

(** The rational a finite double of the kernel stands for; used to compare
    [round] with the kernel's binary64 operations. *)
Definition ofFloat (f : PrimFloat.float) : Q :=
  match FloatOps.Prim2SF f with
  | SpecFloat.S754_finite s m e =>
      Qred ((if s then -1 else 1) * inject_Z (Zpos m) * 2 ^ e)
  | _ => 0
  end.

End Double.

(** Modelled from the spec: the declarations of [../types] ([ElementType],
    [EditorElement] and its [props] bag) are not part of the sources; the
    kinds and fields below are those of the data model (section 3) that the
    code of the preview component reads. *)
Inductive ElementType := VIDEO | AUDIO | IMAGE | TEXT | SHAPE | AI_GENERATED.

Definition ElementType_eqb (a b : ElementType) : bool :=
  match a, b with
  | VIDEO, VIDEO | AUDIO, AUDIO | IMAGE, IMAGE
  | TEXT, TEXT | SHAPE, SHAPE | AI_GENERATED, AI_GENERATED => true
  | _, _ => false
  end.

(** The transition tags matched at lines 414-472. *)
Inductive TransitionType :=
  | none | fade | dissolve | zoom_in | zoom_out
  | wipe_left | wipe_right | wipe_up | wipe_down.

(** Modelled from the spec: a transition spec of [../types], a type tag
    and a duration in seconds. *)
Module Transition.
Record t := mk { type : TransitionType; duration : Q }.
End Transition.

(** Modelled from the spec: the part of the [props] bag of [../types] that
    the synchronisation effect reads. *)
Module Props.
Record t := mk {
  volume : option Q;
  isMuted : option bool;
  playbackRate : option Q;
  highPassFrequency : option Q;
  lowPassFrequency : option Q;
  ducking : option bool;
  duckingThreshold : option Q;
  src : option string
}.
(** A property bag with every field left undefined. *)
Definition undefined : t := mk None None None None None None None None.
End Props.

(** Modelled from the spec: [EditorElement] of [../types], with the
    temporal, spatial and transition fields read by the preview component. *)
Module EditorElement.
Record t := mk {
  id : string;
  type : ElementType;
  startTime : Q;
  duration : Q;
  mediaOffset : Q;
  x : Q;
  y : Q;
  width : Q;
  height : Q;
  rotation : Q;
  flipX : option bool;
  flipY : option bool;
  zIndex : option Q;
  transitionIn : option Transition.t;
  transitionOut : option Transition.t;
  props : Props.t
}.
End EditorElement.

(** The media handle primitive ([HTMLMediaElement]): [node] stands for the
    identity of the DOM object (the key of the [WeakMap] at line 116),
    [elementId] for [dataset.elementId]. *)
Module Media.
Record t := mk {
  node : nat;
  elementId : option string;
  currentTime : Q;
  paused : bool;
  playbackRate : Q;
  volume : Q;
  muted : bool
}.
(** Property writes; every other field is left as it is. *)
Definition set_currentTime (v : Q) (el : t) : t :=
  mk (node el) (elementId el) v (paused el) (playbackRate el) (volume el) (muted el).
Definition set_paused (b : bool) (el : t) : t :=
  mk (node el) (elementId el) (currentTime el) b (playbackRate el) (volume el) (muted el).
Definition set_playbackRate (v : Q) (el : t) : t :=
  mk (node el) (elementId el) (currentTime el) (paused el) v (volume el) (muted el).
Definition set_volume (v : Q) (el : t) : t :=
  mk (node el) (elementId el) (currentTime el) (paused el) (playbackRate el) v (muted el).
Definition set_muted (b : bool) (el : t) : t :=
  mk (node el) (elementId el) (currentTime el) (paused el) (playbackRate el) (volume el) b.
End Media.

(* ===================================================================== *)
(** * Audio / video synchronisation effect (lines 132-256) *)
(* ===================================================================== *)

Module Sync.

(** Calls and property writes on the external primitives, in issue order. *)
Inductive Command :=
  | Resume                                      (* ctx.resume()                  l.145 *)
  | SetCurrentTime (el : nat) (v : Q)           (* el.currentTime = targetTime   l.158 *)
  | Play (el : nat)                             (* el.play()                     l.161 *)
  | Pause (el : nat)                            (* el.pause()             l.163, l.252 *)
  | CreateMediaElementSource (el : nat)         (* ctx.createMediaElementSource  l.174 *)
  | Warn                                        (* console.warn                  l.194 *)
  | SetHighPass (id : string) (v : Q)           (* nodes.hp.frequency.value =    l.205 *)
  | SetLowPass (id : string) (v : Q)            (* nodes.lp.frequency.value =    l.206 *)
  | SetGain (id : string) (v : Q)               (* nodes.gain.gain.value =       l.229 *)
  | SetVolume (el : nat) (v : Q)                (* el.volume =                   l.244 *)
  | SetMuted (el : nat) (b : bool)              (* el.muted =                    l.245 *)
  | SetPlaybackRate (el : nat) (v : Q).         (* el.playbackRate =             l.249 *)

(** The three nodes stored per element id at line 192, reduced to the
    parameters the effect reads and writes; each field holds the value last
    assigned to the parameter (the default for a new node). *)
Record AudioNodes := mkNodes {
  hp_frequency : Q;
  lp_frequency : Q;
  gain_value : Q
}.

(** Web Audio defaults of freshly created nodes: a biquad filter starts at
    350 Hz, a gain node at 1. *)
Definition fresh_nodes : AudioNodes :=
  {| hp_frequency := 350; lp_frequency := 350; gain_value := 1 |}.

Inductive AudioContextState := suspended | running.

(** The three refs of lines 115-117. *)
Record Refs := mkRefs {
  audioContextRef : option AudioContextState;
  audioSourcesRef : gset nat;
  audioNodesRef : gmap string AudioNodes
}.

(** How the [try] block of lines 171-195 ends for a given handle:
    - [Constructed]: every statement runs;
    - [SourceThrows]: [createMediaElementSource] (line 174) throws;
    - [NodeThrows]: the source is created and recorded (line 175) and a
      later statement of the block (lines 178-190) throws. *)
Inductive Construction := Constructed | SourceThrows | NodeThrows.

(** What the browser decides:
    - whether an [AudioContext] class exists, and the state a new context
      starts in;
    - the outcome of route construction per media handle;
    - [playStarts]: whether [play()] on a handle takes effect.  When it does,
      [paused] is false as soon as the call returns; when the browser
      refuses (autoplay policy, no supported source) the returned promise
      is rejected, line 161 swallows the rejection, and [paused] stays true;
    - [frequencyValue]: what reading [frequency.value] gives for the value
      last assigned to it.  An [AudioParam] stores a single-precision float
      clamped to its nominal range, so the value read back need not be the
      value written. *)
Record Browser := mkBrowser {
  AudioContextClass : bool;
  initialState : AudioContextState;
  construction : nat -> Construction;
  playStarts : nat -> bool;
  frequencyValue : Q -> Q
}.

(** The active-window test of lines 155, 217-218, 239-240; the sum is a
    double. *)
Definition isActive (currentTime : Q) (e : EditorElement.t) : bool :=
  Qle_bool (EditorElement.startTime e) currentTime &&
  Qle_bool currentTime
    (Double.add (EditorElement.startTime e) (EditorElement.duration e)).

(** The predicate passed to [elements.find] at lines 213-219 and 235-241. *)
Definition isDuckingSource (currentTime : Q) (element e : EditorElement.t) : bool :=
  negb (String.eqb (EditorElement.id e) (EditorElement.id element)) &&
  (ElementType_eqb (EditorElement.type e) VIDEO ||
   ElementType_eqb (EditorElement.type e) AUDIO) &&
  truthy (Props.ducking (EditorElement.props e)) &&
  Qle_bool (EditorElement.startTime e) currentTime &&
  Qle_bool currentTime
    (Double.add (EditorElement.startTime e) (EditorElement.duration e)).

Definition activeDuckingSource (elements : list EditorElement.t)
    (element : EditorElement.t) (currentTime : Q) : option EditorElement.t :=
  List.find (isDuckingSource currentTime element) elements.

(** Lines 221-223 and 242. *)
Definition applyDucking (source : option EditorElement.t) (effectiveVolume : Q) : Q :=
  match source with
  | Some s => effectiveVolume * nullish (Props.duckingThreshold (EditorElement.props s)) 0.2
  | None => effectiveVolume
  end.

(** Lines 209-223: the value assigned to the gain node at line 229. *)
Definition effectiveVolume_graph (elements : list EditorElement.t)
    (element : EditorElement.t) (currentTime : Q) : Q :=
  let effectiveVolume := nullish (Props.volume (EditorElement.props element)) 1 in
  let effectiveVolume :=
    if truthy (Props.isMuted (EditorElement.props element)) then 0 else effectiveVolume in
  applyDucking (activeDuckingSource elements element currentTime) effectiveVolume.

(** Lines 233-242: the value assigned to [el.volume] at line 244. *)
Definition effectiveVolume_fallback (elements : list EditorElement.t)
    (element : EditorElement.t) (currentTime : Q) : Q :=
  let effectiveVolume := nullish (Props.volume (EditorElement.props element)) 1 in
  applyDucking (activeDuckingSource elements element currentTime) effectiveVolume.

(** Line 156: a double subtraction, then a double addition. *)
Definition targetTime (currentTime : Q) (element : EditorElement.t) : Q :=
  Double.add (Double.sub currentTime (EditorElement.startTime element))
             (EditorElement.mediaOffset element).

(** Line 157: [Math.abs(el.currentTime - targetTime)]; [Math.abs] is exact
    on a double. *)
Definition drift (el : Media.t) (target : Q) : Q :=
  Qabs (Double.sub (Media.currentTime el) target).

(** The literal [0.3] of line 157. *)
Definition threshold : Q := Double.lit 0.3.

(** Lines 157-159: seek only when the handle drifted by more than 0.3 s. *)
Definition timeSync (currentTime : Q) (element : EditorElement.t) (el : Media.t)
    : Media.t * list Command :=
  let target := targetTime currentTime element in
  if Qgt_bool (drift el target) threshold
  then (Media.set_currentTime target el, [SetCurrentTime (Media.node el) target])
  else (el, []).

(** Lines 160-164.  [pause()] sets [paused] at once.  [play()] is called
    whenever the timeline plays and the handle is paused; it clears
    [paused] only when the browser lets playback start. *)
Definition playPause (browser : Browser) (isPlaying : bool) (el : Media.t)
    : Media.t * list Command :=
  if isPlaying && Media.paused el
  then ((if playStarts browser (Media.node el) then Media.set_paused false el else el),
        [Play (Media.node el)])
  else if negb isPlaying && negb (Media.paused el)
  then (Media.set_paused true el, [Pause (Media.node el)])
  else (el, []).

(** Lines 169-196: look the handle up, and construct its route when it has
    no source yet. *)
Definition attach (browser : Browser) (refs : Refs) (el : Media.t) (id : string)
    : Refs * list Command :=
  if decide (Media.node el ∈ audioSourcesRef refs) then (refs, [])
  else
    match construction browser (Media.node el) with
    | SourceThrows =>
        (refs, [CreateMediaElementSource (Media.node el); Warn])
    | NodeThrows =>
        ({| audioContextRef := audioContextRef refs;
            audioSourcesRef := {[Media.node el]} ∪ audioSourcesRef refs;
            audioNodesRef := audioNodesRef refs |},
         [CreateMediaElementSource (Media.node el); Warn])
    | Constructed =>
        ({| audioContextRef := audioContextRef refs;
            audioSourcesRef := {[Media.node el]} ∪ audioSourcesRef refs;
            audioNodesRef := <[id := fresh_nodes]> (audioNodesRef refs) |},
         [CreateMediaElementSource (Media.node el)])
    end.

(** Lines 199-230: parameter update of an attached route.  The two filter
    frequencies are compared with what the parameter reads back
    (lines 205-206). *)
Definition updateNodes (browser : Browser) (elements : list EditorElement.t)
    (element : EditorElement.t) (currentTime : Q) (refs : Refs) (id : string)
    : Refs * list Command :=
  match audioNodesRef refs !! id with
  | None => (refs, [])
  | Some nodes =>
      let hpFreq := or_default (Props.highPassFrequency (EditorElement.props element)) 0 in
      let lpFreq := or_default (Props.lowPassFrequency (EditorElement.props element)) 20000 in
      let hpWrite :=
        negb (Qeq_bool (frequencyValue browser (hp_frequency nodes)) hpFreq) in
      let lpWrite :=
        negb (Qeq_bool (frequencyValue browser (lp_frequency nodes)) lpFreq) in
      let effectiveVolume := effectiveVolume_graph elements element currentTime in
      ({| audioContextRef := audioContextRef refs;
          audioSourcesRef := audioSourcesRef refs;
          audioNodesRef :=
            <[id := {| hp_frequency := if hpWrite then hpFreq else hp_frequency nodes;
                       lp_frequency := if lpWrite then lpFreq else lp_frequency nodes;
                       gain_value := effectiveVolume |}]> (audioNodesRef refs) |},
       (if hpWrite then [SetHighPass id hpFreq] else []) ++
       (if lpWrite then [SetLowPass id lpFreq] else []) ++
       [SetGain id effectiveVolume])
  end.

(** Lines 232-245: no audio context, volume and mute go to the handle. *)
Definition fallback (elements : list EditorElement.t) (element : EditorElement.t)
    (currentTime : Q) (el : Media.t) : Media.t * list Command :=
  let effectiveVolume := effectiveVolume_fallback elements element currentTime in
  let isMuted := nullish (Props.isMuted (EditorElement.props element)) false in
  (Media.set_muted isMuted (Media.set_volume effectiveVolume el),
   [SetVolume (Media.node el) effectiveVolume; SetMuted (Media.node el) isMuted]).

(** Lines 154-253: the body of [if (element)] for one media handle. *)
Definition syncElement (browser : Browser) (currentTime : Q) (isPlaying : bool)
    (elements : list EditorElement.t) (refs : Refs) (el : Media.t) (id : string)
    (element : EditorElement.t) : Refs * Media.t * list Command :=
  if isActive currentTime element then
    let '(el1, seek) := timeSync currentTime element el in
    let '(el2, transport) := playPause browser isPlaying el1 in
    let '(refs', el3, audio) :=
      match audioContextRef refs with
      | Some _ =>
          let '(refs1, attached) := attach browser refs el2 id in
          let '(refs2, updated) :=
            updateNodes browser elements element currentTime refs1 id in
          (refs2, el2, attached ++ updated)
      | None =>
          let '(el3, direct) := fallback elements element currentTime el2 in
          (refs, el3, direct)
      end in
    let rate := nullish (Props.playbackRate (EditorElement.props element)) 1 in
    (refs', Media.set_playbackRate rate el3,
     seek ++ transport ++ audio ++ [SetPlaybackRate (Media.node el) rate])
  else if negb (Media.paused el)
  then (refs, Media.set_paused true el, [Pause (Media.node el)])
  else (refs, el, []).

(** Lines 149-255: the callback of [mediaElements.forEach]. *)
Definition syncMediaElement (browser : Browser) (currentTime : Q) (isPlaying : bool)
    (elements : list EditorElement.t) (refs : Refs) (el : Media.t)
    : Refs * Media.t * list Command :=
  match Media.elementId el with
  | None => (refs, el, [])
  | Some id =>
      match List.find (fun e => String.eqb (EditorElement.id e) id) elements with
      | Some element => syncElement browser currentTime isPlaying elements refs el id element
      | None => (refs, el, [])
      end
  end.

(** [mediaElements.forEach] over the handles of the document, in order. *)
Fixpoint forEach (browser : Browser) (currentTime : Q) (isPlaying : bool)
    (elements : list EditorElement.t) (refs : Refs) (mediaElements : list Media.t)
    : Refs * list Media.t * list Command :=
  match mediaElements with
  | [] => (refs, [], [])
  | el :: rest =>
      let '(refs1, el', cmds) :=
        syncMediaElement browser currentTime isPlaying elements refs el in
      let '(refs2, rest', cmds') :=
        forEach browser currentTime isPlaying elements refs1 rest in
      (refs2, el' :: rest', cmds ++ cmds')
  end.

(** Lines 133-139: the context is created once, when the class exists. *)
Definition initAudioContext (browser : Browser) (refs : Refs) : Refs :=
  match audioContextRef refs with
  | Some _ => refs
  | None =>
      if AudioContextClass browser
      then {| audioContextRef := Some (initialState browser);
              audioSourcesRef := audioSourcesRef refs;
              audioNodesRef := audioNodesRef refs |}
      else refs
  end.

(** Lines 143-146. *)
Definition resumeContext (isPlaying : bool) (refs : Refs) : list Command :=
  match audioContextRef refs with
  | Some suspended => if isPlaying then [Resume] else []
  | _ => []
  end.

(** One run of the effect (one tick): lines 132-256. *)
Definition tick (browser : Browser) (currentTime : Q) (isPlaying : bool)
    (elements : list EditorElement.t) (refs : Refs) (mediaElements : list Media.t)
    : Refs * list Media.t * list Command :=
  let refs0 := initAudioContext browser refs in
  let resumed := resumeContext isPlaying refs0 in
  let '(refs1, mediaElements', cmds) :=
    forEach browser currentTime isPlaying elements refs0 mediaElements in
  (refs1, mediaElements', resumed ++ cmds).

(** The refs of a freshly mounted component. *)
Definition mounted : Refs :=
  {| audioContextRef := None; audioSourcesRef := ∅; audioNodesRef := ∅ |}.

End Sync.

(* ===================================================================== *)
(** * Pointer-driven resize (lines 310-381) *)
(* ===================================================================== *)

Module Geometry.

(** [containerRef.current.getBoundingClientRect()], in pixels. *)
Record Rect := mkRect { rect_width : Q; rect_height : Q }.

(** A pointer position ([clientX], [clientY]). *)
Record Point := mkPoint { clientX : Q; clientY : Q }.

(** The geometry snapshot taken at gesture start (lines 283-289). *)
Record InitialElementState := mkInitial { x : Q; y : Q; w : Q; h : Q; r : Q }.

(** The four locals [newX], [newY], [newW], [newH] (lines 328-331). *)
Record Box := mkBox { newX : Q; newY : Q; newW : Q; newH : Q }.

(** The update handed to [onUpdateElement] (lines 375-380). *)
Record Update := mkUpdate { upd_x : Q; upd_y : Q; upd_width : Q; upd_height : Q }.

(** [handle.includes(c)] for a one-character needle. *)
Fixpoint includes (c : ascii) (handle : string) : bool :=
  match handle with
  | EmptyString => false
  | String a rest => Ascii.eqb a c || includes c rest
  end.

Section Resize.

Variable rect : Rect.
(** [cos] and [sin] are the two constants of lines 317-318,
    [Math.cos(rad)] and [Math.sin(rad)] for [rad = r * Math.PI / 180].
    They have no rational model in general and enter as inputs; at
    rotation 0 they are [1] and [0]. *)
Variables cos sin : Q.

(** Lines 334-350. *)
Definition applyXChange (amount : Q) (isLeft : bool) (b : Box) : Box :=
  if isLeft then
    let half := amount / 2 in
    let dx := - (half * rect_width rect / 100) * cos in
    let dy := - (half * rect_width rect / 100) * sin in
    {| newX := newX b + (dx / rect_width rect) * 100;
       newY := newY b + (dy / rect_height rect) * 100;
       newW := newW b - amount;
       newH := newH b |}
  else
    let half := amount / 2 in
    let dx := (half * rect_width rect / 100) * cos in
    let dy := (half * rect_width rect / 100) * sin in
    {| newX := newX b + (dx / rect_width rect) * 100;
       newY := newY b + (dy / rect_height rect) * 100;
       newW := newW b + amount;
       newH := newH b |}.

(** Lines 352-368. *)
Definition applyYChange (amount : Q) (isTop : bool) (b : Box) : Box :=
  if isTop then
    let half := amount / 2 in
    let dx := (half * rect_height rect / 100) * sin in
    let dy := - (half * rect_height rect / 100) * cos in
    {| newX := newX b + (dx / rect_width rect) * 100;
       newY := newY b + (dy / rect_height rect) * 100;
       newW := newW b;
       newH := newH b - amount |}
  else
    let half := amount / 2 in
    let dx := - (half * rect_height rect / 100) * sin in
    let dy := (half * rect_height rect / 100) * cos in
    {| newX := newX b + (dx / rect_width rect) * 100;
       newY := newY b + (dy / rect_height rect) * 100;
       newW := newW b;
       newH := newH b + amount |}.

(** Lines 312-380: the resize branch of [handleMouseMove]. *)
Definition resize (initialElementState : InitialElementState)
    (resizeHandle : string) (startMousePos e : Point) : Update :=
  let deltaX := clientX e - clientX startMousePos in
  let deltaY := clientY e - clientY startMousePos in
  let localDeltaX := (deltaX * cos) + (deltaY * sin) in
  let localDeltaY := (deltaY * cos) - (deltaX * sin) in
  let ldXPercent := (localDeltaX / rect_width rect) * 100 in
  let ldYPercent := (localDeltaY / rect_height rect) * 100 in
  let b := {| newX := x initialElementState; newY := y initialElementState;
              newW := w initialElementState; newH := h initialElementState |} in
  let b := if includes "e"%char resizeHandle then applyXChange ldXPercent false b else b in
  let b := if includes "w"%char resizeHandle then applyXChange ldXPercent true b else b in
  let b := if includes "s"%char resizeHandle then applyYChange ldYPercent false b else b in
  let b := if includes "n"%char resizeHandle then applyYChange ldYPercent true b else b in
  {| upd_x := newX b; upd_y := newY b;
     upd_width := Qmax 1 (newW b); upd_height := Qmax 1 (newH b) |}.

End Resize.

(** The resize of an element whose rotation is 0 degrees. *)
Definition resize_unrotated (rect : Rect) := resize rect 1 0.

(** The pointer delta along x in percent of the container width: the value
    of [ldXPercent] at rotation 0. *)
Definition deltaXPercent (rect : Rect) (startMousePos e : Point) : Q :=
  ((clientX e - clientX startMousePos) / rect_width rect) * 100.

End Geometry.

(* ===================================================================== *)
(** * Visual rendering of one element (lines 401-495) *)
(* ===================================================================== *)

Module Render.

(** The value of [transitionTransform]: the empty string or one CSS
    transform function with its numeric argument. *)
Inductive Transform :=
  | no_transform
  | scale (k : Q)
  | translateX (percent : Q)
  | translateY (percent : Q).

(** The render descriptor: the numeric part of [style] (lines 475-495).
    The content style and the children of the element do not enter the
    properties stated below and are left out. *)
Record Style := mkStyle {
  key : string;
  left : Q;
  top : Q;
  width : Q;
  height : Q;
  rotate : Q;
  transitionTransform : Transform;
  scaleX : bool;
  scaleY : bool;
  zIndex : Q;
  isSelected : bool;
  opacity : Q
}.

(** Lines 413-442, on the pair ([transitionOpacity], [transitionTransform]). *)
Definition transitionInBranch (el : EditorElement.t) (elapsedTime : Q)
    (st : Q * Transform) : Q * Transform :=
  match EditorElement.transitionIn el with
  | None => st
  | Some tr =>
      if Qlt_bool elapsedTime (Transition.duration tr) then
        let progress := elapsedTime / Transition.duration tr in
        match Transition.type tr with
        | none => st
        | fade | dissolve => (progress, snd st)
        | zoom_in => (progress, scale (0.5 + 0.5 * progress))
        | zoom_out => (progress, scale (1.5 - 0.5 * progress))
        | wipe_left => (fst st, translateX ((1 - progress) * 100))
        | wipe_right => (fst st, translateX ((progress - 1) * 100))
        | wipe_up => (fst st, translateY ((1 - progress) * 100))
        | wipe_down => (fst st, translateY ((progress - 1) * 100))
        end
      else st
  end.

(** Lines 444-473. *)
Definition transitionOutBranch (el : EditorElement.t) (remainingTime : Q)
    (st : Q * Transform) : Q * Transform :=
  match EditorElement.transitionOut el with
  | None => st
  | Some tr =>
      if Qlt_bool remainingTime (Transition.duration tr) then
        let progress := remainingTime / Transition.duration tr in
        match Transition.type tr with
        | none => st
        | fade | dissolve => (Qmin (fst st) progress, snd st)
        | zoom_in => (Qmin (fst st) progress, scale (1.5 - 0.5 * progress))
        | zoom_out => (Qmin (fst st) progress, scale (0.5 + 0.5 * progress))
        | wipe_left => (fst st, translateX ((progress - 1) * 100))
        | wipe_right => (fst st, translateX ((1 - progress) * 100))
        | wipe_up => (fst st, translateY ((progress - 1) * 100))
        | wipe_down => (fst st, translateY ((1 - progress) * 100))
        end
      else st
  end.

(** Lines 410-411: the initial opacity and transform. *)
Definition initial : Q * Transform := (1, no_transform).

(** Line 408. *)
Definition elapsedTime (currentTime : Q) (el : EditorElement.t) : Q :=
  Double.sub currentTime (EditorElement.startTime el).

(** Line 409. *)
Definition remainingTime (currentTime : Q) (el : EditorElement.t) : Q :=
  Double.sub (Double.add (EditorElement.startTime el) (EditorElement.duration el))
             currentTime.

(** Lines 407-473. *)
Definition transition (currentTime : Q) (el : EditorElement.t) : Q * Transform :=
  transitionOutBranch el (remainingTime currentTime el)
    (transitionInBranch el (elapsedTime currentTime el) initial).

(** Lines 401-495. *)
Definition renderVisualElement (currentTime : Q) (selectedElementId : option string)
    (el : EditorElement.t) : option Style :=
  if Qlt_bool currentTime (EditorElement.startTime el) ||
     Qgt_bool currentTime
       (Double.add (EditorElement.startTime el) (EditorElement.duration el))
  then None
  else if ElementType_eqb (EditorElement.type el) AUDIO then None
  else
    let '(transitionOpacity, transitionTransform) := transition currentTime el in
    Some {| key := EditorElement.id el;
            left := EditorElement.x el;
            top := EditorElement.y el;
            width := EditorElement.width el;
            height := EditorElement.height el;
            rotate := EditorElement.rotation el;
            transitionTransform := transitionTransform;
            scaleX := truthy (EditorElement.flipX el);
            scaleY := truthy (EditorElement.flipY el);
            zIndex := 10 + nullish (EditorElement.zIndex el) 0;
            isSelected :=
              match selectedElementId with
              | Some s => String.eqb s (EditorElement.id el)
              | None => false
              end;
            opacity := transitionOpacity |}.

(** Whether the transition-out type assigns [transitionTransform]: the
    zoom and wipe cases of lines 452-471 do, [fade], [dissolve] and [none]
    do not. *)
Definition setsTransform (ty : TransitionType) : bool :=
  match ty with
  | none | fade | dissolve => false
  | _ => true
  end.

(** [[...elements].sort((a, b) => (a.zIndex ?? 0) - (b.zIndex ?? 0))]
    (line 615): a stable sort, written as insertion from the right. *)
Fixpoint insert (e : EditorElement.t) (sorted : list EditorElement.t)
    : list EditorElement.t :=
  match sorted with
  | [] => [e]
  | f :: rest =>
      if Qle_bool (nullish (EditorElement.zIndex e) 0) (nullish (EditorElement.zIndex f) 0)
      then e :: sorted
      else f :: insert e rest
  end.

Definition sortByZIndex (elements : list EditorElement.t) : list EditorElement.t :=
  fold_right insert [] elements.

(** Line 615: the descriptors of one frame; [null] results render nothing. *)
Definition frame (currentTime : Q) (selectedElementId : option string)
    (elements : list EditorElement.t) : list Style :=
  omap (renderVisualElement currentTime selectedElementId) (sortByZIndex elements).

End Render.

(* ===================================================================== *)
(** * Observations on a command trace *)
(* ===================================================================== *)

Module Trace.

Definition isSeek (c : Sync.Command) : bool :=
  match c with Sync.SetCurrentTime _ _ => true | _ => false end.

Definition isAttempt (c : Sync.Command) : bool :=
  match c with Sync.CreateMediaElementSource _ => true | _ => false end.

Definition isPause (c : Sync.Command) : bool :=
  match c with Sync.Pause _ => true | _ => false end.

(** Writes of a volume, a mute flag or a gain. *)
Definition isVolumeWrite (c : Sync.Command) : bool :=
  match c with
  | Sync.SetGain _ _ | Sync.SetVolume _ _ | Sync.SetMuted _ _ => true
  | _ => false
  end.

Definition count (p : Sync.Command -> bool) (cmds : list Sync.Command) : nat :=
  length (List.filter p cmds).

(** Number of assignments to [currentTime] in a trace. *)
Definition seeks : list Sync.Command -> nat := count isSeek.

(** Number of calls of [createMediaElementSource] in a trace. *)
Definition attempts : list Sync.Command -> nat := count isAttempt.

(** Number of volume, mute and gain writes in a trace. *)
Definition volumeWrites : list Sync.Command -> nat := count isVolumeWrite.

(** Writes of the direct-volume fallback (lines 244-245): the handle's own
    volume and mute flag. *)
Definition isDirectWrite (c : Sync.Command) : bool :=
  match c with
  | Sync.SetVolume _ _ | Sync.SetMuted _ _ => true
  | _ => false
  end.

End Trace.

(* ===================================================================== *)
(** * Concrete inputs *)
(* ===================================================================== *)

(** A snapshot type to run the history manager on: a state is named by a
    revision number and serialised in decimal. *)
Module Revision.

Definition HistoryState : Type := nat.

Definition JSON_stringify (s : HistoryState) : string :=
  NilEmpty.string_of_uint (Nat.to_uint s).

Definition JSON_parse (str : string) : HistoryState :=
  match NilEmpty.uint_of_string str with
  | Some u => Nat.of_uint u
  | None => O
  end.

Definition push := History.push HistoryState JSON_stringify JSON_parse.
Definition undo := History.undo HistoryState JSON_stringify JSON_parse.
Definition redo := History.redo HistoryState JSON_stringify JSON_parse.

(** Revisions 1 to 50 pushed onto a new manager: the undo stack is full. *)
Definition full : History.HistoryManager HistoryState :=
  fold_left push (seq 1 50) History.empty.

End Revision.

(** A snapshot type on which JSON is lossy: a state reduced to the
    horizontal positions of its elements.  A position is a number, [NaN]
    (what [deltaX / rect.width] of line 302 gives for 0 / 0, in a container
    without width), or [null].  [JSON.stringify] writes NaN as [null], and
    [JSON.parse] reads [null] back as null. *)
Module Positions.

Inductive position := number (n : nat) | NaN | null.

Definition HistoryState : Type := list position.

Definition token (p : position) : string :=
  match p with
  | number n => NilEmpty.string_of_uint (Nat.to_uint n)
  | NaN | null => "null"
  end.

Fixpoint join (items : list string) : string :=
  match items with
  | [] => ""
  | [a] => a
  | a :: rest => String.append a (String.append "," (join rest))
  end.

Definition JSON_stringify (s : HistoryState) : string :=
  String.append "[" (String.append (join (map token s)) "]").

(** The items of a serialised array: the text between the brackets, cut
    at the commas. *)
Fixpoint items (str current : string) : list string :=
  match str with
  | EmptyString => []
  | String c rest =>
      if Ascii.eqb c "["%char then items rest ""
      else if Ascii.eqb c ","%char then current :: items rest ""
      else if Ascii.eqb c "]"%char
           then (if String.eqb current "" then [] else [current])
           else items rest (String.append current (String c ""))
  end.

Definition value (item : string) : position :=
  if String.eqb item "null" then null
  else match NilEmpty.uint_of_string item with
       | Some u => number (Nat.of_uint u)
       | None => null
       end.

Definition JSON_parse (str : string) : HistoryState := map value (items str "").

Definition push := History.push HistoryState JSON_stringify JSON_parse.
Definition undo := History.undo HistoryState JSON_stringify JSON_parse.
Definition redo := History.redo HistoryState JSON_stringify JSON_parse.

End Positions.

Module Scene.

Definition element (id : string) (type : ElementType) (startTime duration : Q)
    (props : Props.t) : EditorElement.t :=
  {| EditorElement.id := id;
     EditorElement.type := type;
     EditorElement.startTime := startTime;
     EditorElement.duration := duration;
     EditorElement.mediaOffset := 0;
     EditorElement.x := 10; EditorElement.y := 10;
     EditorElement.width := 50; EditorElement.height := 50;
     EditorElement.rotation := 0;
     EditorElement.flipX := None; EditorElement.flipY := None;
     EditorElement.zIndex := None;
     EditorElement.transitionIn := None;
     EditorElement.transitionOut := None;
     EditorElement.props := props |}.

Definition handle (node : nat) (id : string) (currentTime : Q) (paused : bool)
    : Media.t :=
  {| Media.node := node; Media.elementId := Some id;
     Media.currentTime := currentTime; Media.paused := paused;
     Media.playbackRate := 1; Media.volume := 1; Media.muted := false |}.


(** A muted clip. *)
Definition mutedClip : EditorElement.t :=
  element "clip" VIDEO 0 10
    (Props.mk None (Some true) None None None None None None).

(** A plain clip on the timeline from 0 s to 10 s. *)
Definition clip : EditorElement.t := element "clip" VIDEO 0 10 Props.undefined.

(** A clip that starts at 0.1 s and lasts 1 s, and a title on the same
    interval; [0.1] is the double the literal denotes. *)
Definition late : EditorElement.t :=
  element "late" VIDEO (Double.lit 0.1) 1 Props.undefined.
Definition lateTitle : EditorElement.t :=
  element "lateTitle" TEXT (Double.lit 0.1) 1 Props.undefined.

(** A clip from 0 s to 10 s whose media starts [mediaOffset] seconds in. *)
Definition trimmed (mediaOffset : Q) : EditorElement.t :=
  {| EditorElement.id := "trimmed";
     EditorElement.type := VIDEO;
     EditorElement.startTime := 0;
     EditorElement.duration := 10;
     EditorElement.mediaOffset := mediaOffset;
     EditorElement.x := 10; EditorElement.y := 10;
     EditorElement.width := 50; EditorElement.height := 50;
     EditorElement.rotation := 0;
     EditorElement.flipX := None; EditorElement.flipY := None;
     EditorElement.zIndex := None;
     EditorElement.transitionIn := None;
     EditorElement.transitionOut := None;
     EditorElement.props := Props.undefined |}.

(** A narration track, active from 0 s to 10 s. *)
Definition narration : EditorElement.t := element "narration" AUDIO 0 10 Props.undefined.

(** A browser with Web Audio in which route construction throws at
    [createMediaElementSource] for every handle.  In the three browsers
    below [play()] starts playback and a frequency reads back as written. *)
Definition unroutable : Sync.Browser :=
  {| Sync.AudioContextClass := true;
     Sync.initialState := Sync.running;
     Sync.construction := fun _ => Sync.SourceThrows;
     Sync.playStarts := fun _ => true;
     Sync.frequencyValue := fun v => v |}.

(** A browser without Web Audio. *)
Definition noWebAudio : Sync.Browser :=
  {| Sync.AudioContextClass := false;
     Sync.initialState := Sync.suspended;
     Sync.construction := fun _ => Sync.SourceThrows;
     Sync.playStarts := fun _ => true;
     Sync.frequencyValue := fun v => v |}.

(** A browser with Web Audio in which construction succeeds. *)
Definition routable : Sync.Browser :=
  {| Sync.AudioContextClass := true;
     Sync.initialState := Sync.running;
     Sync.construction := fun _ => Sync.Constructed;
     Sync.playStarts := fun _ => true;
     Sync.frequencyValue := fun v => v |}.

(** Refs with an audio context and an attached route for ["clip"]. *)
Definition attachedClip : Sync.Refs :=
  {| Sync.audioContextRef := Some Sync.running;
     Sync.audioSourcesRef := {[ 0%nat ]};
     Sync.audioNodesRef := {[ "clip" := Sync.fresh_nodes ]} |}.

(** A 4 s title that zooms in over 10 s and fades out over 10 s: both
    transition windows cover the whole element. *)
Definition title : EditorElement.t :=
  {| EditorElement.id := "title";
     EditorElement.type := TEXT;
     EditorElement.startTime := 0;
     EditorElement.duration := 4;
     EditorElement.mediaOffset := 0;
     EditorElement.x := 10; EditorElement.y := 10;
     EditorElement.width := 50; EditorElement.height := 50;
     EditorElement.rotation := 0;
     EditorElement.flipX := None; EditorElement.flipY := None;
     EditorElement.zIndex := None;
     EditorElement.transitionIn := Some (Transition.mk zoom_in 10);
     EditorElement.transitionOut := Some (Transition.mk fade 10);
     EditorElement.props := Props.undefined |}.

(** A 400 x 200 px container, an unrotated box at x = 30, width 50, and a
    pointer that moved 100 px to the right since the gesture started. *)
Definition container : Geometry.Rect := Geometry.mkRect 400 200.
Definition box : Geometry.InitialElementState := Geometry.mkInitial 30 20 50 40 0.
Definition pointerDown : Geometry.Point := Geometry.mkPoint 500 300.
Definition pointerNow : Geometry.Point := Geometry.mkPoint 600 300.

End Scene.

From Stdlib Require Import Sorted Permutation.

(* ===================================================================== *)
(** * Pointer gestures (lines 104-112, 259-290, 292-398) *)
(* ===================================================================== *)

Module Interaction.

(** The drag and resize state of lines 105-112. *)
Record State := mkState {
  isDragging : bool;
  dragOffset : Geometry.Point;
  isResizing : bool;
  resizeHandle : option string;
  initialElementState : option Geometry.InitialElementState;
  startMousePos : Geometry.Point
}.


(** What [onUpdateElement] receives: a position (line 305) or a position
    with a size (line 375). *)
Inductive Updates :=
  | Position (x y : Q)
  | Geometry (u : Geometry.Update).

(** The snapshot stored at lines 268-274 and 283-289. *)
Definition snapshot (element : EditorElement.t) : Geometry.InitialElementState :=
  Geometry.mkInitial (EditorElement.x element) (EditorElement.y element)
    (EditorElement.width element) (EditorElement.height element)
    (EditorElement.rotation element).


(** Lines 277-290. *)
Definition handleResizeMouseDown (st : State) (e : Geometry.Point) (handle : string)
    (element : EditorElement.t) : State :=
  {| isDragging := isDragging st;
     dragOffset := dragOffset st;
     isResizing := true;
     resizeHandle := Some handle;
     initialElementState := Some (snapshot element);
     startMousePos := e |}.

(** Lines 383-388. *)
Definition handleMouseUp (st : State) : State :=
  {| isDragging := false;
     dragOffset := dragOffset st;
     isResizing := false;
     resizeHandle := None;
     initialElementState := None;
     startMousePos := startMousePos st |}.

(** Lines 299-308: the drag branch. *)
Definition drag (rect : Geometry.Rect) (initialElementState : Geometry.InitialElementState)
    (dragOffset e : Geometry.Point) : Updates :=
  let deltaX := Geometry.clientX e - Geometry.clientX dragOffset in
  let deltaY := Geometry.clientY e - Geometry.clientY dragOffset in
  let deltaXPercent := (deltaX / Geometry.rect_width rect) * 100 in
  let deltaYPercent := (deltaY / Geometry.rect_height rect) * 100 in
  Position (Geometry.x initialElementState + deltaXPercent)
           (Geometry.y initialElementState + deltaYPercent).

(** Truthiness of [resizeHandle]: a non-empty string. *)
Definition handleSet (h : option string) : option string :=
  match h with
  | Some s => if String.eqb s "" then None else Some s
  | None => None
  end.

Section Handlers.

(** [trig r] stands for the pair [Math.cos(rad)], [Math.sin(rad)] of lines
    316-318, [rad] being the rotation [r] in radians. *)
Variable trig : Q -> Q * Q.

(** Lines 293-382.  [container] is the bounding rectangle of
    [containerRef.current] when the ref is set; the result is the call of
    [onUpdateElement], if any. *)
Definition handleMouseMove (container : option Geometry.Rect)
    (selectedElementId : option string) (st : State) (e : Geometry.Point)
    : option (string * Updates) :=
  match container, selectedElementId, initialElementState st with
  | Some rect, Some id, Some init =>
      if String.eqb id "" then None
      else if isDragging st then Some (id, drag rect init (dragOffset st) e)
      else if isResizing st then
        match handleSet (resizeHandle st) with
        | Some handle =>
            let '(cos, sin) := trig (Geometry.r init) in
            Some (id, Geometry (Geometry.resize rect cos sin init handle
                                  (startMousePos st) e))
        | None => None
        end
      else None
  | _, _, _ => None
  end.

(** Lines 390-393: the window listeners exist only during a gesture. *)
Definition listening (st : State) : bool := isDragging st || isResizing st.

Definition onWindowMouseMove (container : option Geometry.Rect)
    (selectedElementId : option string) (st : State) (e : Geometry.Point)
    : option (string * Updates) :=
  if listening st then handleMouseMove container selectedElementId st e else None.

Definition onWindowMouseUp (st : State) : State :=
  if listening st then handleMouseUp st else st.

End Handlers.

End Interaction.

(* ===================================================================== *)
(** * Media tags of the rendered tree (lines 564-571, 610-615) *)
(* ===================================================================== *)

Module Document.

(** Truthiness of [el.props.src]. *)
Definition hasSrc (el : EditorElement.t) : bool :=
  match Props.src (EditorElement.props el) with
  | Some s => negb (String.eqb s "")
  | None => false
  end.

(** Lines 610-612: one [audio] tag per audio element with a source. *)
Definition audioTags (elements : list EditorElement.t) : list string :=
  map EditorElement.id
    (List.filter (fun e => ElementType_eqb (EditorElement.type e) AUDIO && hasSrc e)
       elements).

(** Lines 564-571 under line 615: one [video] tag per rendered video
    element with a source, in stacking order. *)
Definition videoTags (currentTime : Q) (selectedElementId : option string)
    (elements : list EditorElement.t) : list string :=
  map EditorElement.id
    (List.filter
       (fun e =>
          match Render.renderVisualElement currentTime selectedElementId e with
          | Some _ => ElementType_eqb (EditorElement.type e) VIDEO && hasSrc e
          | None => false
          end)
       (Render.sortByZIndex elements)).

(** The [data-element-id]s that [querySelectorAll('video, audio')] meets,
    in document order. *)
Definition mediaTags (currentTime : Q) (selectedElementId : option string)
    (elements : list EditorElement.t) : list string :=
  audioTags elements ++ videoTags currentTime selectedElementId elements.

End Document.

(* ===================================================================== *)
(** * Transport clock text (lines 629-631) *)
(* ===================================================================== *)

Module Clock.

Definition Math_floor (q : Q) : Z := Qfloor q.

(** Truncation toward zero. *)
Definition Math_trunc (q : Q) : Z :=
  if Qle_bool 0 q then Qfloor q else Qceiling q.

(** [a % b]: the remainder takes the sign of the dividend. *)
Definition remainder (a b : Q) : Q := a - b * inject_Z (Math_trunc (a / b)).

(** [toString] of an integer-valued number. *)
Definition toString (z : Z) : string := NilEmpty.string_of_int (Z.to_int z).

Fixpoint repeat_char (c : ascii) (n : nat) : string :=
  match n with
  | O => EmptyString
  | S m => String c (repeat_char c m)
  end.

(** [s.padStart(n, c)] for a one-character filler. *)
Definition padStart (n : nat) (c : ascii) (s : string) : string :=
  (repeat_char c (n - String.length s) ++ s)%string.

(** [{Math.floor(currentTime / 60)}:{Math.floor(currentTime % 60)
    .toString().padStart(2, '0')}]. *)
Definition display (currentTime : Q) : string :=
  (toString (Math_floor (currentTime / 60)) ++ ":" ++
   padStart 2 "0" (toString (Math_floor (remainder currentTime 60))))%string.

End Clock.

(* ===================================================================== *)
(** * Waveform bars (lines 680-728) *)
(* ===================================================================== *)

Module Waveform.

(** One call of [ctx.fillRect(i, y, 1, h)] (line 725). *)
Record Bar := mkBar { bar_x : nat; bar_y : Q; bar_w : Q; bar_h : Q }.

(** Lines 710-718: minimum and maximum of the [step] samples of pixel [i];
    an index past the end reads [undefined], which passes neither test. *)
Definition chunk (data : list Q) (step i : nat) : Q * Q :=
  fold_left
    (fun (acc : Q * Q) (j : nat) =>
       match data !! (i * step + j)%nat with
       | Some datum =>
           (if Qlt_bool datum (fst acc) then datum else fst acc,
            if Qgt_bool datum (snd acc) then datum else snd acc)
       | None => acc
       end)
    (seq 0 step) (1, -1).

(** Lines 720-725. *)
Definition bar (data : list Q) (step : nat) (amp : Q) (i : nat) : Bar :=
  let '(min, max) := chunk data step i in
  {| bar_x := i; bar_y := (1 + min) * amp; bar_w := 1;
     bar_h := Qmax 1 ((max - min) * amp) |}.

(** Line 706. *)
Definition stepOf (data : list Q) (rect_width : Q) : nat :=
  Z.to_nat (Qceiling (inject_Z (Z.of_nat (length data)) / rect_width)).

(** Line 707: [(height || rect.height) / 2]. *)
Definition ampOf (height rect_height : Q) : Q :=
  (if Qeq_bool height 0 then rect_height else height) / 2.

(** Lines 705-726: the bars drawn for a decoded first channel [data] on a
    canvas of [rect_width] x [rect_height]; the loop runs for the integers
    [i < rect.width]. *)
Definition draw (data : list Q) (rect_width rect_height height : Q) : list Bar :=
  if Qlt_bool 0 rect_width then
    map (bar data (stepOf data rect_width) (ampOf height rect_height))
        (seq 0 (Z.to_nat (Qceiling rect_width)))
  else [].

End Waveform.

(* ===================================================================== *)
(** * Project storage: what is written (src/unnamed/part_000, lines 115-121) *)
(* ===================================================================== *)

Module Storage.

(** Lines 115-121: drop the [src] of an element whose source is a blob URL. *)
Definition stripBlobSrc (el : EditorElement.t) : EditorElement.t :=
  match Props.src (EditorElement.props el) with
  | Some src =>
      if String.prefix "blob:" src then
        let p := EditorElement.props el in
        EditorElement.mk (EditorElement.id el) (EditorElement.type el)
          (EditorElement.startTime el) (EditorElement.duration el)
          (EditorElement.mediaOffset el) (EditorElement.x el) (EditorElement.y el)
          (EditorElement.width el) (EditorElement.height el)
          (EditorElement.rotation el) (EditorElement.flipX el)
          (EditorElement.flipY el) (EditorElement.zIndex el)
          (EditorElement.transitionIn el) (EditorElement.transitionOut el)
          (Props.mk (Props.volume p) (Props.isMuted p) (Props.playbackRate p)
             (Props.highPassFrequency p) (Props.lowPassFrequency p)
             (Props.ducking p) (Props.duckingThreshold p) None)
      else el
  | None => el
  end.

Definition elementsToSave (elements : list EditorElement.t) : list EditorElement.t :=
  map stripBlobSrc elements.

End Storage.

(* ===================================================================== *)
(** * Further observations on a command trace *)
(* ===================================================================== *)

Module Observe.

(** Commands that go to the audio context or its graph, and the warning
    of a failed construction. *)
Definition isGraphCommand (c : Sync.Command) : bool :=
  match c with
  | Sync.Resume | Sync.CreateMediaElementSource _ | Sync.Warn
  | Sync.SetHighPass _ _ | Sync.SetLowPass _ _ | Sync.SetGain _ _ => true
  | _ => false
  end.


End Observe.

(* ===================================================================== *)
(** * Capacity of the history manager *)
(* ===================================================================== *)

Module Capacity.

(** The two stacks together hold at most [MAX_HISTORY_SIZE] snapshots. *)
Definition within {HistoryState : Type} (h : History.HistoryManager HistoryState) : Prop :=
  (length (History.undoStack h) + length (History.redoStack h)
   <= History.MAX_HISTORY_SIZE)%nat.

End Capacity.

(* ===================================================================== *)
(** * Further concrete inputs *)
(* ===================================================================== *)

Module Stage.


(** A video clip whose source is a blob URL. *)
Definition recorded : EditorElement.t :=
  Scene.element "recorded" VIDEO 0 10
    (Props.mk None None None None None None None (Some "blob:4f2a")).

(** A video clip whose source is a file on a server. *)
Definition hosted : EditorElement.t :=
  Scene.element "hosted" VIDEO 0 10
    (Props.mk None None None None None None None (Some "https://cdn/clip.mp4")).


End Stage.

(* ===================================================================== *)
(** * Properties of the history manager *)
(* ===================================================================== *)

Section HistoryProperties.

Variable HistoryState : Type.
Variable JSON_stringify : HistoryState -> string.
Variable JSON_parse : string -> HistoryState.

Abbreviation Manager := (History.HistoryManager HistoryState).
Abbreviation push := (History.push HistoryState JSON_stringify JSON_parse).
Abbreviation undo := (History.undo HistoryState JSON_stringify JSON_parse).
Abbreviation redo := (History.redo HistoryState JSON_stringify JSON_parse).

Lemma Array_pop_snoc {A} (l : list A) (a : A) :
  History.Array_pop (l ++ [a]) = Some (l, a).
Proof.
  unfold History.Array_pop.
  rewrite reverse_snoc, reverse_involutive. reflexivity.
Qed.

Lemma Array_pop_nonempty {A} (l : list A) :
  l <> [] -> exists rest a, l = rest ++ [a] /\ History.Array_pop l = Some (rest, a).
Proof.
  intros Hne.
  destruct (reverse l) as [|a r] eqn:Hr.
  - apply (f_equal reverse) in Hr. rewrite reverse_involutive in Hr. contradiction.
  - exists (reverse r), a.
    assert (Hl : l = reverse r ++ [a]).
    { rewrite <- (reverse_involutive l), Hr. apply reverse_cons. }
    split; [exact Hl|]. rewrite Hl. apply Array_pop_snoc.
Qed.

Lemma Array_shift_snoc_length {A} (l : list A) (a : A) :
  length (History.Array_shift (l ++ [a])) = length l.
Proof. destruct l; simpl; [reflexivity|]. rewrite length_app; simpl. lia. Qed.

(** A push of the state whose serialisation is the recorded fingerprint
    changes nothing. *)
Lemma push_same_fingerprint (h : Manager) (s : HistoryState) :
  History.lastSavedState h = JSON_stringify s -> push h s = h.
Proof.
  intros Hfp. unfold History.push. rewrite Hfp, String.eqb_refl. reflexivity.
Qed.

(** After a push the fingerprint is the serialisation of the pushed state. *)
Lemma push_fingerprint (h : Manager) (s : HistoryState) :
  History.lastSavedState (push h s) = JSON_stringify s.
Proof.
  unfold History.push.
  destruct (String.eqb_spec (JSON_stringify s) (History.lastSavedState h)) as [E|E];
    simpl; congruence.
Qed.

(** Depth of the undo stack after one push. *)
Lemma push_depth (h : Manager) (s : HistoryState) :
  length (History.undoStack (push h s)) =
    if String.eqb (JSON_stringify s) (History.lastSavedState h)
    then length (History.undoStack h)
    else if Nat.ltb (length (History.undoStack h)) History.MAX_HISTORY_SIZE
         then S (length (History.undoStack h))
         else length (History.undoStack h).
Proof.
  unfold History.push.
  destruct (String.eqb (JSON_stringify s) (History.lastSavedState h)); [reflexivity|].
  cbn [History.undoStack].
  rewrite length_app. cbn [length].
  destruct (Nat.ltb_spec History.MAX_HISTORY_SIZE (length (History.undoStack h) + 1));
    destruct (Nat.ltb_spec (length (History.undoStack h)) History.MAX_HISTORY_SIZE);
    try lia.
  - apply Array_shift_snoc_length.
  - rewrite length_app. cbn [length]. lia.
Qed.

(** C8 (as amended): two consecutive pushes of the same state leave the
    manager exactly as one push does, the second being a no-op.  The
    undo stack ends one entry deeper than before the first call when the
    state does not serialise to the recorded fingerprint and the stack
    holds fewer than [MAX_HISTORY_SIZE] entries; it keeps its depth when
    the state matches the fingerprint, and at capacity, where the oldest
    entry is evicted. *)
Theorem push_twice_dedup (h : Manager) (s : HistoryState) :
  push (push h s) s = push h s /\
  length (History.undoStack (push (push h s) s)) =
    if String.eqb (JSON_stringify s) (History.lastSavedState h)
    then length (History.undoStack h)
    else if Nat.ltb (length (History.undoStack h)) History.MAX_HISTORY_SIZE
         then S (length (History.undoStack h))
         else length (History.undoStack h).
Proof.
  assert (Hidem : push (push h s) s = push h s)
    by (apply push_same_fingerprint, push_fingerprint).
  split; [exact Hidem|].
  rewrite Hidem. apply push_depth.
Qed.

(** C9 (as amended): with a non-empty undo stack, [undo(c)] returns some
    [r], and [redo(r)] then returns [JSON.parse(JSON.stringify(c))], the
    deep clone that [undo] took of [c].  What comes back is [c] itself
    exactly when [c] survives a JSON round trip. *)
Theorem undo_redo_roundtrip (h : Manager) (c : HistoryState) :
  History.undoStack h <> [] ->
  exists h1 r h2 c',
    undo h c = (h1, Some r) /\
    redo h1 r = (h2, Some c') /\
    c' = JSON_parse (JSON_stringify c) /\
    (c' = c <-> JSON_parse (JSON_stringify c) = c).
Proof.
  intros Hne.
  destruct (Array_pop_nonempty (History.undoStack h) Hne) as (rest & r & _ & Hpop).
  unfold History.undo. rewrite Hpop.
  eexists _, r, _, (JSON_parse (JSON_stringify c)).
  split; [reflexivity|].
  unfold History.redo. cbn [History.redoStack].
  rewrite Array_pop_snoc.
  split; [reflexivity|]. split; [reflexivity|]. reflexivity.
Qed.

(** Underflow is a no-op signal. *)
Lemma undo_empty (h : Manager) (c : HistoryState) :
  History.undoStack h = [] -> undo h c = (h, None).
Proof. intros E. unfold History.undo. rewrite E. reflexivity. Qed.

End HistoryProperties.

(** From a new manager, two pushes of one state give depth 1. *)
Example push_twice_fresh :
  length (History.undoStack (Revision.push (Revision.push History.empty 7%nat) 7%nat)) = 1%nat.
Proof. reflexivity. Qed.

(** C8 (as stated) fails at capacity: with 50 snapshots recorded, pushing
    revision 51 twice leaves 50 entries, not 51. *)
Lemma push_twice_not_one_deeper :
  length (History.undoStack (Revision.push (Revision.push Revision.full 51%nat) 51%nat))
  <> S (length (History.undoStack Revision.full)).
Proof. vm_compute. discriminate. Qed.

(** C9 (as stated) fails on a state that JSON cannot represent.  With one
    snapshot recorded and a current state whose only position is NaN,
    [undo] followed by [redo] returns the position [null]: the state that
    comes back serialises as the current state did, and is not equal to
    it. *)
Lemma undo_redo_loses_NaN :
  let h := Positions.push History.empty [Positions.number 1] in
  let c := [Positions.NaN] in
  History.undoStack h <> [] /\
  exists h1 r h2 c',
    Positions.undo h c = (h1, Some r) /\
    Positions.redo h1 r = (h2, Some c') /\
    c' = [Positions.null] /\
    History.same_serialization _ Positions.JSON_stringify c' c /\
    c' <> c.
Proof.
  cbv zeta. split; [vm_compute; discriminate|].
  eexists _, _, _, _.
  split; [vm_compute; reflexivity|].
  split; [vm_compute; reflexivity|].
  split; [reflexivity|]. split; [vm_compute; reflexivity|]. discriminate.
Qed.

(** The round trip on the full manager, current state revision 77, which
    survives the JSON round trip and comes back as it was. *)
Lemma undo_redo_roundtrip_witness :
  History.undoStack Revision.full <> [] /\
  exists h1 r h2,
    Revision.undo Revision.full 77%nat = (h1, Some r) /\
    Revision.redo h1 r = (h2, Some 77%nat).
Proof.
  split; [vm_compute; discriminate|].
  destruct (undo_redo_roundtrip Revision.HistoryState Revision.JSON_stringify
              Revision.JSON_parse Revision.full 77%nat)
    as (h1 & r & h2 & c' & Hundo & Hredo & _ & Hsame).
  - vm_compute; discriminate.
  - exists h1, r, h2. split; [exact Hundo|].
    assert (Hc : c' = 77%nat) by (apply Hsame; vm_compute; reflexivity).
    rewrite <- Hc. exact Hredo.
Defined.

(* ===================================================================== *)
(** * Binary64 rounding *)
(* ===================================================================== *)

Section DoubleProperties.



Lemma nearest_even_nonneg (q : Q) : 0 <= q -> (0 <= Double.nearest_even q)%Z.
Proof.
  intros H. assert (Hf : (0 <= Qfloor q)%Z).
  { change 0%Z with (Qfloor 0). apply Qfloor_resp_le. exact H. }
  unfold Double.nearest_even.
  destruct (Qcompare _ _); [destruct (Z.even _)| |]; lia.
Qed.

Lemma round_positive_nonneg (q : Q) : 0 <= q -> 0 <= Double.round_positive q.
Proof.
  intros H. unfold Double.round_positive.
  set (e := Z.max _ _).
  assert (Hp : 0 < 2 ^ e) by (apply Qpower_0_lt; reflexivity).
  apply Qmult_le_0_compat; [|apply Qlt_le_weak; exact Hp].
  change 0 with (inject_Z 0). rewrite <- Zle_Qle.
  apply nearest_even_nonneg.
  apply Qle_shift_div_l; [exact Hp|]. lra.
Qed.

(** Rounding never crosses zero. *)
Lemma round_nonneg (q : Q) : 0 <= q -> 0 <= Double.round q.
Proof.
  intros H. unfold Double.round.
  destruct (Qcompare (Qred q) 0) eqn:E.
  - apply Qle_refl.
  - apply Qlt_alt in E. rewrite Qred_correct in E. lra.
  - rewrite Qred_correct. apply round_positive_nonneg.
    rewrite Qred_correct. exact H.
Qed.

Lemma sub_nonneg (a b : Q) : b <= a -> 0 <= Double.sub a b.
Proof. intros H. apply round_nonneg. lra. Qed.


End DoubleProperties.

(** [Double.round] against the kernel's binary64 operations, on the
    doubles nearest to 0.1, 0.3, 1.1, 0.05 and 0.8: the three literals, a
    sum that rounds up, a sum that rounds down, a difference, a tie
    ([2^53 + 1]) and a subnormal result. *)
Section KernelFloats.

Import PrimFloat.

Example round_agrees_with_binary64 :
  Double.lit 0.1 = Double.ofFloat 0x1.999999999999ap-4%float /\
  Double.lit 0.3 = Double.ofFloat 0x1.3333333333333p-2%float /\
  Double.lit 1.1 = Double.ofFloat 0x1.199999999999ap+0%float /\
  Double.add (Double.ofFloat 0x1.999999999999ap-4%float) 1
    = Double.ofFloat (0x1.999999999999ap-4 + 1)%float /\
  Double.add (Double.ofFloat 0x1.999999999999ap-5%float) 0.25
    = Double.ofFloat (0x1.999999999999ap-5 + 0x1p-2)%float /\
  Double.sub (Double.ofFloat 0x1.999999999999ap-1%float)
             (Double.ofFloat 0x1.199999999999ap+0%float)
    = Double.ofFloat (0x1.999999999999ap-1 - 0x1.199999999999ap+0)%float /\
  Double.add (Double.ofFloat 0x1p53%float) 1 = Double.ofFloat (0x1p53 + 1)%float /\
  Double.sub (Double.ofFloat 0x1.8p-1070%float) (Double.ofFloat 0x1p-1074%float)
    = Double.ofFloat (0x1.8p-1070 - 0x1p-1074)%float.
Proof. vm_compute. repeat split. Qed.

End KernelFloats.

(* ===================================================================== *)
(** * Properties of the synchronisation effect *)
(* ===================================================================== *)

Section SyncProperties.

Import Sync.

Lemma Qlt_bool_iff (a b : Q) : Qlt_bool a b = true <-> a < b.
Proof.
  unfold Qlt_bool. rewrite negb_true_iff.
  split.
  - intros H. apply Qnot_le_lt. intros Hle.
    apply Qle_bool_iff in Hle. congruence.
  - intros H. destruct (Qle_bool b a) eqn:E; [|reflexivity].
    apply Qle_bool_iff in E. exfalso. apply (Qlt_not_le _ _ H E).
Qed.

Lemma Qlt_bool_false_iff (a b : Q) : Qlt_bool a b = false <-> b <= a.
Proof.
  unfold Qlt_bool. rewrite negb_false_iff. apply Qle_bool_iff.
Qed.

Lemma isActive_iff (t : Q) (e : EditorElement.t) :
  isActive t e = true <->
  EditorElement.startTime e <= t /\
  t <= Double.add (EditorElement.startTime e) (EditorElement.duration e).
Proof.
  unfold isActive. rewrite andb_true_iff, !Qle_bool_iff. reflexivity.
Qed.

Lemma count_app (p : Command -> bool) (a b : list Command) :
  Trace.count p (a ++ b) = (Trace.count p a + Trace.count p b)%nat.
Proof. unfold Trace.count. rewrite List.filter_app, length_app. reflexivity. Qed.

Lemma count_zero_In (p : Command -> bool) (cmds : list Command) (c : Command) :
  Trace.count p cmds = 0%nat -> In c cmds -> p c = false.
Proof.
  unfold Trace.count. intros Hz Hin.
  destruct (p c) eqn:Hp; [|reflexivity].
  assert (Hf : In c (List.filter p cmds)) by (apply List.filter_In; auto).
  destruct (List.filter p cmds); [contradiction | discriminate].
Qed.

(** ** The pieces of the callback *)

Lemma timeSync_cmds (t : Q) (element : EditorElement.t) (el : Media.t) :
  snd (timeSync t element el) =
    if Qgt_bool (drift el (targetTime t element)) threshold
    then [SetCurrentTime (Media.node el) (targetTime t element)] else [].
Proof. unfold timeSync. destruct (Qgt_bool _ _); reflexivity. Qed.

Lemma timeSync_handle (t : Q) (element : EditorElement.t) (el : Media.t) :
  Media.node (fst (timeSync t element el)) = Media.node el /\
  Media.elementId (fst (timeSync t element el)) = Media.elementId el /\
  Media.paused (fst (timeSync t element el)) = Media.paused el.
Proof. unfold timeSync. destruct (Qgt_bool _ _); auto. Qed.

Lemma playPause_cmds (browser : Browser) (isPlaying : bool) (el : Media.t) (c : Command) :
  In c (snd (playPause browser isPlaying el)) ->
  c = Play (Media.node el) \/ c = Pause (Media.node el).
Proof.
  unfold playPause.
  destruct (isPlaying && Media.paused el); [|destruct (negb isPlaying && _)];
    simpl; intuition.
Qed.

Lemma playPause_handle (browser : Browser) (isPlaying : bool) (el : Media.t) :
  Media.node (fst (playPause browser isPlaying el)) = Media.node el /\
  Media.elementId (fst (playPause browser isPlaying el)) = Media.elementId el.
Proof.
  unfold playPause.
  destruct (isPlaying && Media.paused el); [|destruct (negb isPlaying && _)]; auto.
  destruct (playStarts browser (Media.node el)); auto.
Qed.

Lemma attach_cmds (browser : Browser) (refs : Refs) (el : Media.t) (id : string)
    (c : Command) :
  In c (snd (attach browser refs el id)) ->
  c = CreateMediaElementSource (Media.node el) \/ c = Warn.
Proof.
  unfold attach. destruct (decide _); [simpl; tauto|].
  destruct (construction browser (Media.node el)); simpl; intuition.
Qed.

Lemma attach_context (browser : Browser) (refs : Refs) (el : Media.t) (id : string) :
  audioContextRef (fst (attach browser refs el id)) = audioContextRef refs.
Proof.
  unfold attach. destruct (decide _); [reflexivity|].
  destruct (construction browser (Media.node el)); reflexivity.
Qed.

(** A route recorded for [id] is still recorded after [attach]. *)
Lemma attach_keeps_nodes (browser : Browser) (refs : Refs) (el : Media.t) (id : string) :
  is_Some (audioNodesRef refs !! id) ->
  is_Some (audioNodesRef (fst (attach browser refs el id)) !! id).
Proof.
  intros Hsome. unfold attach. destruct (decide _); [exact Hsome|].
  destruct (construction browser (Media.node el)); cbn [fst audioNodesRef];
    try exact Hsome.
  rewrite lookup_insert_eq. eauto.
Qed.

(** When [createMediaElementSource] throws, nothing is recorded. *)
Lemma attach_source_throws (browser : Browser) (refs : Refs) (el : Media.t) (id : string) :
  Media.node el ∉ audioSourcesRef refs ->
  construction browser (Media.node el) = SourceThrows ->
  attach browser refs el id = (refs, [CreateMediaElementSource (Media.node el); Warn]).
Proof.
  intros Hnot Hthrow. unfold attach.
  destruct (decide _); [contradiction|]. rewrite Hthrow. reflexivity.
Qed.

Lemma updateNodes_none (browser : Browser) (elements : list EditorElement.t) (element : EditorElement.t)
    (t : Q) (refs : Refs) (id : string) :
  audioNodesRef refs !! id = None ->
  updateNodes browser elements element t refs id = (refs, []).
Proof. intros Hnone. unfold updateNodes. rewrite Hnone. reflexivity. Qed.

(** An attached route receives the graph-path effective volume. *)
Lemma updateNodes_gain (browser : Browser) (elements : list EditorElement.t) (element : EditorElement.t)
    (t : Q) (refs : Refs) (id : string) :
  is_Some (audioNodesRef refs !! id) ->
  exists nodes',
    audioNodesRef (fst (updateNodes browser elements element t refs id)) !! id = Some nodes' /\
    gain_value nodes' = effectiveVolume_graph elements element t /\
    In (SetGain id (effectiveVolume_graph elements element t))
       (snd (updateNodes browser elements element t refs id)).
Proof.
  intros [nodes Hnodes]. unfold updateNodes. rewrite Hnodes.
  cbn [fst snd audioNodesRef]. eexists. split; [apply lookup_insert_eq|].
  split; [reflexivity|].
  apply in_or_app; right. apply in_or_app; right. left; reflexivity.
Qed.

Lemma updateNodes_cmds (browser : Browser) (elements : list EditorElement.t) (element : EditorElement.t)
    (t : Q) (refs : Refs) (id : string) (c : Command) :
  In c (snd (updateNodes browser elements element t refs id)) ->
  (exists v, c = SetHighPass id v) \/ (exists v, c = SetLowPass id v) \/
  (exists v, c = SetGain id v).
Proof.
  unfold updateNodes. destruct (audioNodesRef refs !! id); [|simpl; tauto].
  cbn [snd]. intros Hin.
  apply in_app_or in Hin as [Hin|Hin];
    [|apply in_app_or in Hin as [Hin|Hin]].
  - destruct (negb _); simpl in Hin; [|tauto].
    destruct Hin as [<-|[]]. eauto.
  - destruct (negb (Qeq_bool (frequencyValue browser (lp_frequency _)) _));
      simpl in Hin; [|tauto].
    destruct Hin as [<-|[]]. eauto.
  - destruct Hin as [<-|[]]. eauto.
Qed.

(** ** The callback on an active and on an inactive element *)

Lemma syncElement_active (browser : Browser) (t : Q) (isPlaying : bool)
    (elements : list EditorElement.t) (refs : Refs) (el : Media.t) (id : string)
    (element : EditorElement.t) :
  isActive t element = true ->
  let el1 := fst (timeSync t element el) in
  let el2 := fst (playPause browser isPlaying el1) in
  let rate := nullish (Props.playbackRate (EditorElement.props element)) 1 in
  exists refs' el' audio,
    syncElement browser t isPlaying elements refs el id element =
      (refs', el',
       snd (timeSync t element el) ++ snd (playPause browser isPlaying el1) ++ audio ++
       [SetPlaybackRate (Media.node el) rate]) /\
    Media.node el' = Media.node el /\
    Media.elementId el' = Media.elementId el /\
    match audioContextRef refs with
    | Some _ =>
        refs' = fst (updateNodes browser elements element t (fst (attach browser refs el2 id)) id) /\
        audio = snd (attach browser refs el2 id) ++
                snd (updateNodes browser elements element t (fst (attach browser refs el2 id)) id)
    | None =>
        refs' = refs /\
        audio = snd (fallback elements element t el2) /\
        el' = Media.set_playbackRate rate (fst (fallback elements element t el2))
    end.
Proof.
  intros Hact el1 el2 rate. unfold syncElement. rewrite Hact.
  destruct (timeSync_handle t element el) as (Hn1 & Hi1 & _).
  destruct (playPause_handle browser isPlaying el1) as (Hn2 & Hi2).
  fold el1 in Hn1, Hi1. fold el2 in Hn2, Hi2.
  destruct (timeSync t element el) as [e1 seek] eqn:Ets.
  cbn [fst snd] in *. subst el1.
  destruct (playPause browser isPlaying e1) as [e2 transport] eqn:Epp.
  cbn [fst snd] in *. subst el2.
  destruct (audioContextRef refs) as [ctx|].
  - destruct (attach browser refs e2 id) as [refs1 attached] eqn:Eat.
    cbn [fst snd].
    destruct (updateNodes browser elements element t refs1 id) as [refs2 updated].
    cbn [fst snd]. eexists _, _, _. split; [reflexivity|].
    cbn. repeat split; congruence.
  - unfold fallback. eexists _, _, _. split; [reflexivity|].
    cbn. repeat split; congruence.
Qed.

Lemma syncElement_inactive (browser : Browser) (t : Q) (isPlaying : bool)
    (elements : list EditorElement.t) (refs : Refs) (el : Media.t) (id : string)
    (element : EditorElement.t) :
  isActive t element = false ->
  syncElement browser t isPlaying elements refs el id element =
    if Media.paused el then (refs, el, [])
    else (refs, Media.set_paused true el, [Pause (Media.node el)]).
Proof.
  intros Hin. unfold syncElement. rewrite Hin.
  destruct (Media.paused el); reflexivity.
Qed.

(** C5 (as amended): the element is treated as active exactly when
    [startTime <= t <= end], where [end] is the double-precision sum
    [startTime + duration] that line 155 computes.  The playback rate is
    written in exactly that case, every command other than a pause is
    issued only in that case, and outside the window the only effect is a
    pause of a handle that is playing. *)
Theorem active_window (browser : Browser) (t : Q) (isPlaying : bool)
    (elements : list EditorElement.t) (refs : Refs) (el : Media.t) (id : string)
    (element : EditorElement.t) :
  let '(refs', el', cmds) :=
    syncElement browser t isPlaying elements refs el id element in
  let inWindow :=
    EditorElement.startTime element <= t /\
    t <= Double.add (EditorElement.startTime element) (EditorElement.duration element) in
  (isActive t element = true <-> inWindow) /\
  (In (SetPlaybackRate (Media.node el)
         (nullish (Props.playbackRate (EditorElement.props element)) 1)) cmds
   <-> inWindow) /\
  (forall c, In c cmds -> Trace.isPause c = false -> inWindow) /\
  (~ inWindow ->
   refs' = refs /\
   el' = (if Media.paused el then el else Media.set_paused true el) /\
   cmds = (if Media.paused el then [] else [Pause (Media.node el)])).
Proof.
  destruct (syncElement browser t isPlaying elements refs el id element)
    as [[refs' el'] cmds] eqn:E.
  pose proof (isActive_iff t element) as Hiff.
  cbv zeta. split; [exact Hiff|].
  destruct (isActive t element) eqn:Hact.
  - assert (Hw : EditorElement.startTime element <= t /\
                 t <= Double.add (EditorElement.startTime element) (EditorElement.duration element))
      by (apply Hiff; reflexivity).
    destruct (syncElement_active browser t isPlaying elements refs el id element Hact)
      as (r & e & audio & Heq & _).
    rewrite Heq in E. injection E as <- <- <-.
    split; [|split].
    + split; [intros _; exact Hw|]. intros _.
      apply in_or_app; right. apply in_or_app; right. apply in_or_app; right.
      left; reflexivity.
    + intros; exact Hw.
    + intros Hn. contradiction.
  - assert (Hw : ~ (EditorElement.startTime element <= t /\
                    t <= Double.add (EditorElement.startTime element) (EditorElement.duration element))).
    { intros Hw. apply Hiff in Hw. discriminate. }
    rewrite (syncElement_inactive browser t isPlaying elements refs el id element Hact) in E.
    destruct (Media.paused el); injection E as <- <- <-.
    + split; [|split].
      * split; [intros []|intros H; contradiction].
      * intros c [].
      * intros _. auto.
    + split; [|split].
      * split; [intros [H|[]]; discriminate|intros H; contradiction].
      * intros c [<-|[]] Hp. discriminate.
      * intros _. auto.
Qed.

(** The callback of [forEach] runs [syncElement] on the element whose id
    is the handle's [dataset.elementId], and does nothing without one. *)
Lemma syncMediaElement_found (browser : Browser) (t : Q) (isPlaying : bool)
    (elements : list EditorElement.t) (refs : Refs) (el : Media.t) (id : string)
    (element : EditorElement.t) :
  Media.elementId el = Some id ->
  List.find (fun e => String.eqb (EditorElement.id e) id) elements = Some element ->
  EditorElement.id element = id /\
  syncMediaElement browser t isPlaying elements refs el =
  syncElement browser t isPlaying elements refs el id element.
Proof.
  intros Hid Hfind. unfold syncMediaElement. rewrite Hid, Hfind.
  split; [|reflexivity].
  apply List.find_some in Hfind as [_ Heq]. apply String.eqb_eq. exact Heq.
Qed.

Lemma syncMediaElement_unknown (browser : Browser) (t : Q) (isPlaying : bool)
    (elements : list EditorElement.t) (refs : Refs) (el : Media.t) :
  Media.elementId el = None ->
  syncMediaElement browser t isPlaying elements refs el = (refs, el, []).
Proof. intros Hid. unfold syncMediaElement. rewrite Hid. reflexivity. Qed.

(** ** Seeks *)

Lemma count_zero_forall (p : Command -> bool) (cmds : list Command) :
  (forall c, In c cmds -> p c = false) -> Trace.count p cmds = 0%nat.
Proof.
  unfold Trace.count. induction cmds as [|c cmds IH]; intros H; [reflexivity|].
  simpl. rewrite (H c (or_introl eq_refl)). apply IH.
  intros c' Hc'. apply H. right; exact Hc'.
Qed.

Lemma fallback_cmds (elements : list EditorElement.t) (element : EditorElement.t)
    (t : Q) (el : Media.t) (c : Command) :
  In c (snd (fallback elements element t el)) ->
  (exists v, c = SetVolume (Media.node el) v) \/ (exists b, c = SetMuted (Media.node el) b).
Proof.
  unfold fallback. cbn [snd]. intros [<-|[<-|[]]]; eauto.
Qed.

(** Only [timeSync] assigns [currentTime]. *)
Lemma seeks_syncElement (browser : Browser) (t : Q) (isPlaying : bool)
    (elements : list EditorElement.t) (refs : Refs) (el : Media.t) (id : string)
    (element : EditorElement.t) :
  isActive t element = true ->
  Trace.seeks (snd (syncElement browser t isPlaying elements refs el id element)) =
  Trace.seeks (snd (timeSync t element el)).
Proof.
  intros Hact.
  destruct (syncElement_active browser t isPlaying elements refs el id element Hact)
    as (r & e & audio & Heq & _ & _ & Haudio).
  rewrite Heq. cbn [snd]. unfold Trace.seeks. rewrite !count_app.
  assert (Hpp : Trace.count Trace.isSeek
                  (snd (playPause browser isPlaying (fst (timeSync t element el)))) = 0%nat).
  { apply count_zero_forall. intros c Hc.
    apply playPause_cmds in Hc as [->| ->]; reflexivity. }
  assert (Hau : Trace.count Trace.isSeek audio = 0%nat).
  { apply count_zero_forall. intros c Hc.
    destruct (audioContextRef refs).
    - destruct Haudio as [_ ->]. apply in_app_or in Hc as [Hc|Hc].
      + apply attach_cmds in Hc as [->| ->]; reflexivity.
      + apply updateNodes_cmds in Hc as [[v ->]|[[v ->]|[v ->]]]; reflexivity.
    - destruct Haudio as (_ & -> & _).
      apply fallback_cmds in Hc as [[v ->]|[b ->]]; reflexivity. }
  rewrite Hpp, Hau. cbn. lia.
Qed.

(** C6 (as amended): on an active element the target is
    [(t - startTime) + mediaOffset] and the drift [|currentTime - target|],
    each operation rounded to a double as lines 156-157 compute them, and
    the bound is the double that the literal [0.3] denotes.  A seek to the
    target is issued exactly when the drift exceeds the bound: a drift of
    the bound or less gives no seek, a larger one exactly one seek in the
    tick, and no other value is ever assigned to [currentTime]. *)
Theorem seek_hysteresis (browser : Browser) (t : Q) (isPlaying : bool)
    (elements : list EditorElement.t) (refs : Refs) (el : Media.t) (id : string)
    (element : EditorElement.t) :
  isActive t element = true ->
  let cmds := snd (syncElement browser t isPlaying elements refs el id element) in
  let target :=
    Double.add (Double.sub t (EditorElement.startTime element))
               (EditorElement.mediaOffset element) in
  let drift := Qabs (Double.sub (Media.currentTime el) target) in
  (In (SetCurrentTime (Media.node el) target) cmds <-> Double.lit 0.3 < drift) /\
  (drift <= Double.lit 0.3 -> Trace.seeks cmds = 0%nat) /\
  (Double.lit 0.3 < drift -> Trace.seeks cmds = 1%nat) /\
  (forall n v, In (SetCurrentTime n v) cmds -> n = Media.node el /\ v = target).
Proof.
  intros Hact cmds target drift.
  assert (Hseeks : Trace.seeks cmds = Trace.seeks (snd (timeSync t element el)))
    by (apply seeks_syncElement; exact Hact).
  rewrite timeSync_cmds in Hseeks.
  change (targetTime t element) with target in Hseeks.
  change (Sync.drift el target) with drift in Hseeks.
  change threshold with (Double.lit 0.3) in Hseeks.
  assert (Hzero : drift <= Double.lit 0.3 -> Trace.seeks cmds = 0%nat).
  { intros Hle. rewrite Hseeks.
    apply Qlt_bool_false_iff in Hle. unfold Qgt_bool. rewrite Hle. reflexivity. }
  assert (Hone : Double.lit 0.3 < drift -> Trace.seeks cmds = 1%nat).
  { intros Hlt. rewrite Hseeks.
    apply Qlt_bool_iff in Hlt. unfold Qgt_bool. rewrite Hlt. reflexivity. }
  destruct (syncElement_active browser t isPlaying elements refs el id element Hact)
    as (r & e & audio & Heq & _ & _ & Haudio).
  assert (Hcmds : cmds =
      snd (timeSync t element el) ++
      snd (playPause browser isPlaying (fst (timeSync t element el))) ++ audio ++
      [SetPlaybackRate (Media.node el)
         (nullish (Props.playbackRate (EditorElement.props element)) 1)])
    by (unfold cmds; rewrite Heq; reflexivity).
  split; [|split; [exact Hzero|split; [exact Hone|]]].
  - split.
    + intros Hin. destruct (Qlt_le_dec (Double.lit 0.3) drift) as [Hlt|Hle]; [exact Hlt|].
      apply (count_zero_In Trace.isSeek cmds _ (Hzero Hle)) in Hin. discriminate.
    + intros Hlt. rewrite Hcmds, timeSync_cmds.
      change (targetTime t element) with target.
      change (Sync.drift el target) with drift.
      change threshold with (Double.lit 0.3).
      apply Qlt_bool_iff in Hlt. unfold Qgt_bool. rewrite Hlt.
      left; reflexivity.
  - intros n v Hin. rewrite Hcmds in Hin.
    apply in_app_or in Hin as [Hin|Hin].
    + rewrite timeSync_cmds in Hin.
      change (targetTime t element) with target in Hin.
      destruct (Qgt_bool _ _); [|destruct Hin].
      destruct Hin as [Hin|[]]. injection Hin as <- <-. auto.
    + exfalso.
      assert (Hns : Trace.isSeek (SetCurrentTime n v) = false); [|discriminate].
      apply in_app_or in Hin as [Hin|Hin].
      { apply playPause_cmds in Hin as [Hin|Hin]; discriminate. }
      apply in_app_or in Hin as [Hin|Hin]; [|destruct Hin as [Hin|[]]; discriminate].
      destruct (audioContextRef refs).
      * destruct Haudio as [_ ->]. apply in_app_or in Hin as [Hin|Hin].
        -- apply attach_cmds in Hin as [Hin|Hin]; discriminate.
        -- apply updateNodes_cmds in Hin as [[w Hin]|[[w Hin]|[w Hin]]]; discriminate.
      * destruct Haudio as (_ & -> & _).
        apply fallback_cmds in Hin as [[w Hin]|[w Hin]]; discriminate.
Qed.

(** ** Ducking *)


(** What qualifies an element as a ducking source for [element] at [t]. *)
Lemma isDuckingSource_iff (t : Q) (element e : EditorElement.t) :
  isDuckingSource t element e = true <->
  EditorElement.id e <> EditorElement.id element /\
  (EditorElement.type e = VIDEO \/ EditorElement.type e = AUDIO) /\
  Props.ducking (EditorElement.props e) = Some true /\
  isActive t e = true.
Proof.
  unfold isDuckingSource, isActive, truthy, nullish.
  rewrite !andb_true_iff, orb_true_iff, negb_true_iff.
  destruct (String.eqb_spec (EditorElement.id e) (EditorElement.id element)) as [Eid|Eid];
    destruct (EditorElement.type e);
    destruct (Props.ducking (EditorElement.props e)) as [[|]|];
    cbn; intuition (try discriminate; try congruence).
Qed.


(** Without a ducking source the base volume is the effective volume. *)
Lemma no_ducking_source (elements : list EditorElement.t) (element : EditorElement.t)
    (t : Q) :
  List.filter (isDuckingSource t element) elements = [] ->
  effectiveVolume_fallback elements element t =
    nullish (Props.volume (EditorElement.props element)) 1.
Proof.
  intros Hf. unfold effectiveVolume_fallback, activeDuckingSource.
  assert (Hnone : List.find (isDuckingSource t element) elements = None).
  { induction elements as [|a l IH]; simpl in *; [reflexivity|].
    destruct (isDuckingSource t element a); [discriminate | auto]. }
  rewrite Hnone. reflexivity.
Qed.

(** ** The two volume paths *)

Lemma applyDucking_zero (source : option EditorElement.t) : applyDucking source 0 == 0.
Proof. destruct source; cbn [applyDucking]; [ring | reflexivity]. Qed.

(** The graph value is the fallback value of an element that is not muted,
    and zero for a muted one. *)
Lemma graph_vs_fallback (elements : list EditorElement.t) (element : EditorElement.t)
    (t : Q) :
  effectiveVolume_graph elements element t ==
    if truthy (Props.isMuted (EditorElement.props element)) then 0
    else effectiveVolume_fallback elements element t.
Proof.
  unfold effectiveVolume_graph, effectiveVolume_fallback.
  destruct (truthy _); [apply applyDucking_zero | reflexivity].
Qed.

(** C2 (as amended): on an active element, the graph path with an attached
    route and the fallback path use the same ducking computation on the
    base volume [volume ?? 1].  The fallback writes that product to the
    handle's volume and [isMuted ?? false] to its mute flag; the graph
    path writes the product to the gain node for an element that is not
    muted and 0 for a muted one.  The gain therefore equals the handle's
    volume when the element is not muted, and equals the level the handle
    plays at (0 when its mute flag is set) in every case. *)
Theorem fallback_parity (browser : Browser) (t : Q) (isPlaying : bool)
    (elements : list EditorElement.t) (refsG refsF : Refs) (el : Media.t)
    (id : string) (element : EditorElement.t) :
  isActive t element = true ->
  is_Some (audioContextRef refsG) ->
  is_Some (audioNodesRef refsG !! id) ->
  audioContextRef refsF = None ->
  let graph := syncElement browser t isPlaying elements refsG el id element in
  let direct := syncElement browser t isPlaying elements refsF el id element in
  exists nodes',
    audioNodesRef (graph.1.1) !! id = Some nodes' /\
    In (SetGain id (gain_value nodes')) (graph.2) /\
    In (SetVolume (Media.node el) (Media.volume (direct.1.2))) (direct.2) /\
    In (SetMuted (Media.node el) (Media.muted (direct.1.2))) (direct.2) /\
    gain_value nodes' = effectiveVolume_graph elements element t /\
    Media.volume (direct.1.2) = effectiveVolume_fallback elements element t /\
    Media.muted (direct.1.2) = nullish (Props.isMuted (EditorElement.props element)) false /\
    gain_value nodes' == (if Media.muted (direct.1.2) then 0 else Media.volume (direct.1.2)) /\
    (Media.muted (direct.1.2) = false -> gain_value nodes' = Media.volume (direct.1.2)).
Proof.
  intros Hact [ctx Hctx] Hnodes HctxF graph direct.
  destruct (syncElement_active browser t isPlaying elements refsG el id element Hact)
    as (rG & eG & audioG & HeqG & _ & _ & HaudioG).
  destruct (syncElement_active browser t isPlaying elements refsF el id element Hact)
    as (rF & eF & audioF & HeqF & _ & _ & HaudioF).
  rewrite Hctx in HaudioG. rewrite HctxF in HaudioF.
  destruct HaudioG as [HrG HaG]. destruct HaudioF as (_ & HaF & HeF).
  set (el2 := fst (playPause browser isPlaying (fst (timeSync t element el)))) in *.
  assert (Hn2 : Media.node el2 = Media.node el).
  { unfold el2. destruct (playPause_handle browser isPlaying (fst (timeSync t element el))) as [-> _].
    apply timeSync_handle. }
  destruct (updateNodes_gain browser elements element t (fst (attach browser refsG el2 id)) id
              (attach_keeps_nodes browser refsG el2 id Hnodes))
    as (nodes' & Hlook & Hgain & HinG).
  exists nodes'.
  unfold graph, direct. rewrite HeqG, HeqF. cbn [fst snd].
  assert (Hvol : Media.volume eF = effectiveVolume_fallback elements element t)
    by (rewrite HeF; reflexivity).
  assert (Hmute : Media.muted eF =
                  nullish (Props.isMuted (EditorElement.props element)) false)
    by (rewrite HeF; reflexivity).
  split; [rewrite HrG; exact Hlook|].
  split.
  { rewrite Hgain, HaG. apply in_or_app; right. apply in_or_app; right.
    apply in_or_app; left. apply in_or_app; right. exact HinG. }
  split.
  { rewrite Hvol, HaF. apply in_or_app; right. apply in_or_app; right.
    apply in_or_app; left. unfold fallback. cbn [snd]. rewrite Hn2. left; reflexivity. }
  split.
  { rewrite Hmute, HaF. apply in_or_app; right. apply in_or_app; right.
    apply in_or_app; left. unfold fallback. cbn [snd]. rewrite Hn2.
    right; left; reflexivity. }
  split; [exact Hgain|]. split; [exact Hvol|]. split; [exact Hmute|].
  split.
  - rewrite Hgain, Hmute, Hvol. apply graph_vs_fallback.
  - intros Hm. rewrite Hgain, Hvol. rewrite Hmute in Hm.
    unfold effectiveVolume_graph, effectiveVolume_fallback, truthy.
    rewrite Hm. reflexivity.
Qed.

(** ** Route construction that throws *)

(** The audio part of one tick on a handle without a source whose
    construction throws at [createMediaElementSource]: the attempt, the
    warning, and the update of whatever route is stored under the id. *)
Lemma syncElement_source_throws (browser : Browser) (t : Q) (isPlaying : bool)
    (elements : list EditorElement.t) (refs : Refs) (el : Media.t) (id : string)
    (element : EditorElement.t) :
  isActive t element = true ->
  is_Some (audioContextRef refs) ->
  Media.node el ∉ audioSourcesRef refs ->
  construction browser (Media.node el) = SourceThrows ->
  exists el',
    syncElement browser t isPlaying elements refs el id element =
      (fst (updateNodes browser elements element t refs id), el',
       snd (timeSync t element el) ++
       snd (playPause browser isPlaying (fst (timeSync t element el))) ++
       ([CreateMediaElementSource (Media.node el); Warn] ++
        snd (updateNodes browser elements element t refs id)) ++
       [SetPlaybackRate (Media.node el)
          (nullish (Props.playbackRate (EditorElement.props element)) 1)]) /\
    Media.node el' = Media.node el /\
    Media.elementId el' = Media.elementId el.
Proof.
  intros Hact [ctx Hctx] Hsrc Hthrow.
  destruct (syncElement_active browser t isPlaying elements refs el id element Hact)
    as (r & e & audio & Heq & Hn & Hi & Haudio).
  rewrite Hctx in Haudio. destruct Haudio as [Hr Ha].
  set (el2 := fst (playPause browser isPlaying (fst (timeSync t element el)))) in *.
  assert (Hn2 : Media.node el2 = Media.node el).
  { unfold el2. destruct (playPause_handle browser isPlaying (fst (timeSync t element el))) as [-> _].
    apply timeSync_handle. }
  rewrite attach_source_throws in Hr, Ha by (rewrite Hn2; assumption).
  cbn [fst snd] in Hr, Ha. rewrite Hn2 in Ha. subst r audio.
  exists e. auto.
Qed.

(** A parameter update leaves the context and the sources alone, and
    stores a route only where one is stored already. *)
Lemma updateNodes_refs (browser : Browser) (elements : list EditorElement.t)
    (element : EditorElement.t) (t : Q) (refs : Refs) (id : string) :
  audioContextRef (fst (updateNodes browser elements element t refs id))
    = audioContextRef refs /\
  audioSourcesRef (fst (updateNodes browser elements element t refs id))
    = audioSourcesRef refs /\
  forall k, is_Some (audioNodesRef (fst (updateNodes browser elements element t refs id)) !! k)
            <-> is_Some (audioNodesRef refs !! k).
Proof.
  unfold updateNodes. destruct (audioNodesRef refs !! id) as [nodes|] eqn:Hnodes;
    cbn [fst audioContextRef audioSourcesRef audioNodesRef]; [|tauto].
  split; [reflexivity|]. split; [reflexivity|]. intros k.
  destruct (decide (id = k)) as [<-|Hne].
  - rewrite lookup_insert_eq, Hnodes. split; eauto.
  - rewrite lookup_insert_ne by exact Hne. reflexivity.
Qed.

(** The pieces of the callback other than route construction make no
    attempt, and only the fallback writes to the handle's volume. *)
Lemma timeSync_quiet (t : Q) (element : EditorElement.t) (el : Media.t) (c : Command) :
  In c (snd (timeSync t element el)) ->
  Trace.isAttempt c = false /\ Trace.isVolumeWrite c = false /\
  Trace.isDirectWrite c = false.
Proof.
  rewrite timeSync_cmds. destruct (Qgt_bool _ _); [|intros []].
  intros [<-|[]]. auto.
Qed.

Lemma playPause_quiet (browser : Browser) (isPlaying : bool) (el : Media.t) (c : Command) :
  In c (snd (playPause browser isPlaying el)) ->
  Trace.isAttempt c = false /\ Trace.isVolumeWrite c = false /\
  Trace.isDirectWrite c = false.
Proof. intros Hc. apply playPause_cmds in Hc as [->| ->]; auto. Qed.

Lemma updateNodes_quiet (browser : Browser) (elements : list EditorElement.t)
    (element : EditorElement.t) (t : Q) (refs : Refs) (id : string) (c : Command) :
  In c (snd (updateNodes browser elements element t refs id)) ->
  Trace.isAttempt c = false /\ Trace.isDirectWrite c = false.
Proof.
  intros Hc. apply updateNodes_cmds in Hc as [[v ->]|[[v ->]|[v ->]]]; auto.
Qed.

(** C3 (as amended): when [createMediaElementSource] throws for a handle
    without a source, the exception is caught and the tick goes on (the
    warning is logged and the playback rate is still written).  Nothing
    records the failure: the context and the sources are as before, no
    route is added, and the handle still has no source.  The element does
    not fall back to direct-volume control: neither the handle's volume
    nor its mute flag is written.  A gain is written only through a route
    that is already stored under the element's id (one built for an
    earlier handle of that element); without one, the refs are left
    exactly as they were and no volume, mute flag or gain is written.
    And construction is attempted once more on every later run of the
    callback for that handle on an active element, as long as an audio
    context exists and the handle has no source. *)
Theorem attach_failure_retried (browser : Browser) (t : Q) (isPlaying : bool)
    (elements : list EditorElement.t) (refs : Refs) (el : Media.t) (id : string)
    (element : EditorElement.t) :
  isActive t element = true ->
  is_Some (audioContextRef refs) ->
  Media.node el ∉ audioSourcesRef refs ->
  construction browser (Media.node el) = SourceThrows ->
  exists refs' el' cmds,
    syncElement browser t isPlaying elements refs el id element = (refs', el', cmds) /\
    (In Warn cmds /\
     In (SetPlaybackRate (Media.node el)
           (nullish (Props.playbackRate (EditorElement.props element)) 1)) cmds /\
     Trace.attempts cmds = 1%nat) /\
    (audioContextRef refs' = audioContextRef refs /\
     audioSourcesRef refs' = audioSourcesRef refs /\
     (forall k, is_Some (audioNodesRef refs' !! k) <-> is_Some (audioNodesRef refs !! k)) /\
     Media.node el' = Media.node el /\
     Media.node el' ∉ audioSourcesRef refs') /\
    (forall c, In c cmds -> Trace.isDirectWrite c = false) /\
    (audioNodesRef refs !! id = None ->
     refs' = refs /\ Trace.volumeWrites cmds = 0%nat) /\
    (is_Some (audioNodesRef refs !! id) ->
     In (SetGain id (effectiveVolume_graph elements element t)) cmds) /\
    (forall t2 isPlaying2 elements2 element2 refs2 el2,
       isActive t2 element2 = true ->
       is_Some (audioContextRef refs2) ->
       Media.node el2 = Media.node el ->
       Media.node el2 ∉ audioSourcesRef refs2 ->
       Trace.attempts
         (snd (syncElement browser t2 isPlaying2 elements2 refs2 el2 id element2)) = 1%nat).
Proof.
  intros Hact Hctx Hsrc Hthrow.
  assert (Hattempts : forall tt pp ee ii rr (m : Media.t) (xx : EditorElement.t),
    Trace.attempts
      (snd (timeSync tt xx m) ++
       snd (playPause browser pp (fst (timeSync tt xx m))) ++
       ([CreateMediaElementSource (Media.node m); Warn] ++
        snd (updateNodes browser ee xx tt rr ii)) ++
       [SetPlaybackRate (Media.node m)
          (nullish (Props.playbackRate (EditorElement.props xx)) 1)]) = 1%nat).
  { intros tt pp ee ii rr m xx. unfold Trace.attempts. rewrite !count_app.
    rewrite (count_zero_forall Trace.isAttempt (snd (timeSync tt xx m)))
      by (intros c Hc; apply (timeSync_quiet _ _ _ _ Hc)).
    rewrite (count_zero_forall Trace.isAttempt (snd (playPause _ _ _)))
      by (intros c Hc; apply (playPause_quiet _ _ _ _ Hc)).
    rewrite (count_zero_forall Trace.isAttempt (snd (updateNodes _ _ _ _ _ _)))
      by (intros c Hc; apply (updateNodes_quiet _ _ _ _ _ _ _ Hc)).
    reflexivity. }
  destruct (syncElement_source_throws browser t isPlaying elements refs el id element
              Hact Hctx Hsrc Hthrow) as (el' & Heq & Hn & Hi).
  destruct (updateNodes_refs browser elements element t refs id) as (Hc' & Hs' & Hk').
  eexists _, el', _. split; [exact Heq|].
  split; [|split; [|split; [|split; [|split]]]].
  - split; [|split].
    + apply in_or_app; right. apply in_or_app; right. apply in_or_app; left.
      right; left; reflexivity.
    + apply in_or_app; right. apply in_or_app; right. apply in_or_app; right.
      left; reflexivity.
    + apply Hattempts.
  - split; [exact Hc'|]. split; [exact Hs'|]. split; [exact Hk'|].
    split; [exact Hn|]. rewrite Hn, Hs'. exact Hsrc.
  - intros c Hc.
    apply in_app_or in Hc as [Hc|Hc]; [apply (timeSync_quiet _ _ _ _ Hc)|].
    apply in_app_or in Hc as [Hc|Hc]; [apply (playPause_quiet _ _ _ _ Hc)|].
    apply in_app_or in Hc as [Hc|Hc]; [|destruct Hc as [<-|[]]; reflexivity].
    apply in_app_or in Hc as [Hc|Hc]; [|apply (updateNodes_quiet _ _ _ _ _ _ _ Hc)].
    destruct Hc as [<-|[<-|[]]]; reflexivity.
  - intros Hnone. rewrite (updateNodes_none browser elements element t refs id Hnone).
    cbn [fst snd]. split; [reflexivity|].
    unfold Trace.volumeWrites. rewrite !count_app.
    rewrite (count_zero_forall Trace.isVolumeWrite (snd (timeSync t element el)))
      by (intros c Hc; apply (timeSync_quiet _ _ _ _ Hc)).
    rewrite (count_zero_forall Trace.isVolumeWrite (snd (playPause _ _ _)))
      by (intros c Hc; apply (playPause_quiet _ _ _ _ Hc)).
    reflexivity.
  - intros Hsome.
    destruct (updateNodes_gain browser elements element t refs id Hsome)
      as (nodes' & _ & _ & Hin).
    apply in_or_app; right. apply in_or_app; right. apply in_or_app; left.
    apply in_or_app; right. exact Hin.
  - intros t2 isPlaying2 elements2 element2 refs2 el2 Hact2 Hctx2 Hnode2 Hsrc2.
    destruct (syncElement_source_throws browser t2 isPlaying2 elements2 refs2 el2 id
                element2 Hact2 Hctx2 Hsrc2) as (el'' & Heq2 & _).
    { rewrite Hnode2. exact Hthrow. }
    rewrite Heq2. cbn [snd]. apply Hattempts.
Qed.

(** When construction throws after the source is recorded (line 175), the
    handle keeps its source without nodes and is not attempted again. *)
Lemma attach_node_throws_once (browser : Browser) (refs : Refs) (el : Media.t)
    (id : string) :
  Media.node el ∉ audioSourcesRef refs ->
  construction browser (Media.node el) = NodeThrows ->
  Trace.attempts (snd (attach browser refs el id)) = 1%nat /\
  Trace.attempts (snd (attach browser (fst (attach browser refs el id)) el id)) = 0%nat.
Proof.
  intros Hsrc Hthrow. unfold attach at 1 3. destruct (decide _); [contradiction|].
  rewrite Hthrow. cbn [fst snd]. split; [reflexivity|].
  unfold attach. cbn [audioSourcesRef].
  destruct (decide _) as [_|Hn]; [reflexivity|].
  exfalso. apply Hn. set_solver.
Qed.

End SyncProperties.

(** ** The effect on concrete timelines *)

(** C5 (as stated) fails at the end of the window.  A clip starts at 0.1
    and lasts 1; at [t = 1.1] (both literals as doubles) [t] is past the
    exact sum [startTime + duration], yet the double sum of line 155 is
    [t] itself: the clip is treated as active, played, and given its
    rate. *)
Lemma active_past_exact_window_end :
  let t := Double.lit 1.1 in
  let element := Scene.late in
  let el := Scene.handle 0 "late" 1 true in
  let cmds :=
    snd (Sync.syncElement Scene.noWebAudio t true [element] Sync.mounted el
           "late" element) in
  ~ (EditorElement.startTime element <= t /\
     t <= EditorElement.startTime element + EditorElement.duration element) /\
  Double.add (EditorElement.startTime element) (EditorElement.duration element) = t /\
  Sync.isActive t element = true /\
  In (Sync.Play 0) cmds /\
  In (Sync.SetPlaybackRate 0 1) cmds.
Proof.
  cbv zeta. split; [|split; [|split; [|split]]].
  - intros [_ H]. vm_compute in H. apply H. reflexivity.
  - vm_compute. reflexivity.
  - vm_compute. reflexivity.
  - vm_compute. tauto.
  - vm_compute. tauto.
Qed.

(** A handle exactly 0.3 s away from its target is left alone. *)
Example no_seek_at_drift_three_tenths :
  Trace.seeks
    (snd (Sync.syncElement Scene.noWebAudio (Double.lit 0.3) true [Scene.clip]
            Sync.mounted (Scene.handle 0 "clip" 0 false) "clip" Scene.clip)) = 0%nat.
Proof. vm_compute. reflexivity. Qed.

(** C6 (as stated) fails in both directions, the target and the drift
    being computed in doubles.  With [t = 0.1], a media offset of 1 and a
    handle at 0.8, the exact drift is below 0.3 (as a double and as a
    fraction) and the handle is sought; with [t = 0.05], a media offset of
    0.25 and a handle at 0, the exact drift is above 0.3 and it is not. *)
Lemma seek_decided_in_double_arithmetic :
  (let t := Double.lit 0.1 in
   let element := Scene.trimmed 1 in
   let el := Scene.handle 0 "trimmed" (Double.lit 0.8) false in
   let target :=
     (t - EditorElement.startTime element) + EditorElement.mediaOffset element in
   Sync.isActive t element = true /\
   Qabs (Media.currentTime el - target) < Double.lit 0.3 /\
   Qabs (Media.currentTime el - target) < 0.3 /\
   Trace.seeks
     (snd (Sync.syncElement Scene.noWebAudio t true [element] Sync.mounted el
             "trimmed" element)) = 1%nat) /\
  (let t := Double.lit 0.05 in
   let element := Scene.trimmed 0.25 in
   let el := Scene.handle 0 "trimmed" 0 false in
   let target :=
     (t - EditorElement.startTime element) + EditorElement.mediaOffset element in
   Sync.isActive t element = true /\
   Double.lit 0.3 < Qabs (Media.currentTime el - target) /\
   0.3 < Qabs (Media.currentTime el - target) /\
   Trace.seeks
     (snd (Sync.syncElement Scene.noWebAudio t true [element] Sync.mounted el
             "trimmed" element)) = 0%nat).
Proof.
  cbv zeta. split; (split; [|split; [|split]]); vm_compute; reflexivity.
Qed.

(** A handle 0.31 s away from its target is sought once. *)
Lemma seek_hysteresis_witness :
  Sync.isActive (Double.lit 0.31) Scene.clip = true /\
  Trace.seeks
    (snd (Sync.syncElement Scene.noWebAudio (Double.lit 0.31) true [Scene.clip]
            Sync.mounted (Scene.handle 0 "clip" 0 false) "clip" Scene.clip)) = 1%nat.
Proof.
  split; [vm_compute; reflexivity|].
  destruct (seek_hysteresis Scene.noWebAudio (Double.lit 0.31) true [Scene.clip]
              Sync.mounted (Scene.handle 0 "clip" 0 false) "clip" Scene.clip)
    as (_ & _ & Hone & _).
  - vm_compute; reflexivity.
  - apply Hone. vm_compute; reflexivity.
Defined.


(** C2 (as stated) fails on a muted clip: from a newly mounted component,
    one tick with Web Audio writes 0 to the gain node, one tick without it
    writes 1 to the handle's volume (and sets its mute flag). *)
Lemma muted_gain_differs_from_volume :
  let el := Scene.handle 0 "clip" 0 true in
  let graph := Sync.tick Scene.routable 1 true [Scene.mutedClip] Sync.mounted [el] in
  let direct := Sync.tick Scene.noWebAudio 1 true [Scene.mutedClip] Sync.mounted [el] in
  Sync.gain_value <$> (Sync.audioNodesRef (graph.1.1) !! "clip") = Some 0 /\
  In (Sync.SetGain "clip" 0) (graph.2) /\
  Media.volume <$> direct.1.2 = [1] /\
  In (Sync.SetVolume 0 1) (direct.2) /\
  Media.muted <$> direct.1.2 = [true] /\
  ~ 0 == 1.
Proof.
  cbv zeta.
  split; [vm_compute; reflexivity|]. split; [vm_compute; tauto|].
  split; [vm_compute; reflexivity|]. split; [vm_compute; tauto|].
  split; [vm_compute; reflexivity|]. intros H. discriminate H.
Qed.

(** The two paths on the muted clip. *)
Lemma fallback_parity_witness :
  exists nodes',
    Sync.audioNodesRef
      ((Sync.syncElement Scene.routable 1 true [Scene.mutedClip] Scene.attachedClip
          (Scene.handle 0 "clip" 0 true) "clip" Scene.mutedClip).1.1) !! "clip"
    = Some nodes' /\
    Sync.gain_value nodes' == 0.
Proof.
  destruct (fallback_parity Scene.routable 1 true [Scene.mutedClip]
              Scene.attachedClip Sync.mounted (Scene.handle 0 "clip" 0 true)
              "clip" Scene.mutedClip)
    as (nodes' & Hlook & _ & _ & _ & _ & _ & _ & Hlevel & _).
  - reflexivity.
  - exists Sync.running. reflexivity.
  - exists Sync.fresh_nodes. reflexivity.
  - reflexivity.
  - exists nodes'. split; [exact Hlook | exact Hlevel].
Defined.

(** C3 (as stated) fails: with a browser whose [createMediaElementSource]
    throws, construction is attempted on the first tick and again on the
    second, and neither tick writes a volume or a mute flag. *)
Lemma construction_retried_each_tick :
  let tick1 :=
    Sync.tick Scene.unroutable 1 true [Scene.clip] Sync.mounted
      [Scene.handle 0 "clip" 0 true] in
  let tick2 := Sync.tick Scene.unroutable 2 true [Scene.clip] (tick1.1.1) (tick1.1.2) in
  Trace.attempts (tick1.2) = 1%nat /\
  Trace.attempts (tick2.2) = 1%nat /\
  Trace.volumeWrites (tick1.2 ++ tick2.2) = 0%nat.
Proof. vm_compute. auto. Qed.

(** A route stored under the element's id for an earlier handle is still
    driven when construction fails for the handle that replaced it: the
    failing tick writes the gain. *)
Example stale_route_gain_written :
  let cmds :=
    snd (Sync.syncElement Scene.unroutable 1 true [Scene.clip] Scene.attachedClip
           (Scene.handle 1 "clip" 0 true) "clip" Scene.clip) in
  Trace.attempts cmds = 1%nat /\
  In Sync.Warn cmds /\
  In (Sync.SetGain "clip" 1) cmds /\
  Trace.volumeWrites cmds = 1%nat.
Proof. vm_compute. tauto. Qed.

(** The failing tick on the clip, from the refs of a newly mounted
    component with its context, and the retry on what that tick leaves. *)
Lemma attach_failure_retried_witness :
  let refs := Sync.initAudioContext Scene.unroutable Sync.mounted in
  exists refs' el' cmds,
    Sync.syncElement Scene.unroutable 1 true [Scene.clip] refs
      (Scene.handle 0 "clip" 0 true) "clip" Scene.clip = (refs', el', cmds) /\
    refs' = refs /\
    Trace.attempts cmds = 1%nat /\
    Trace.volumeWrites cmds = 0%nat /\
    Trace.attempts
      (snd (Sync.syncElement Scene.unroutable 2 true [Scene.clip] refs' el' "clip"
              Scene.clip)) = 1%nat.
Proof.
  cbv zeta.
  destruct (attach_failure_retried Scene.unroutable 1 true [Scene.clip]
              (Sync.initAudioContext Scene.unroutable Sync.mounted)
              (Scene.handle 0 "clip" 0 true) "clip" Scene.clip)
    as (refs' & el' & cmds & Heq & (_ & _ & Hatt) & (Hctx & _ & _ & Hn & Hsrc)
        & _ & Hnone & _ & Hagain).
  - reflexivity.
  - exists Sync.running. reflexivity.
  - apply not_elem_of_empty.
  - reflexivity.
  - destruct Hnone as [Hrefs Hvol]; [reflexivity|].
    exists refs', el', cmds. split; [exact Heq|]. split; [exact Hrefs|].
    split; [exact Hatt|]. split; [exact Hvol|].
    apply Hagain.
    + reflexivity.
    + rewrite Hctx. exists Sync.running. reflexivity.
    + exact Hn.
    + exact Hsrc.
Defined.

(* ===================================================================== *)
(** * Properties of the resize *)
(* ===================================================================== *)

Section GeometryProperties.

Import Geometry.

Variable rect : Rect.
Hypothesis rect_width_nonzero : ~ rect_width rect == 0.

(** The west handle on an unrotated element: [x] moves by minus half the
    delta, the width shrinks by the whole delta (down to 1). *)
Lemma west_resize_unrotated (i : InitialElementState) (startMousePos e : Point) :
  let u := resize_unrotated rect i "w" startMousePos e in
  let a := deltaXPercent rect startMousePos e in
  upd_x u == x i - a / 2 /\
  upd_y u == y i /\
  upd_width u == Qmax 1 (w i - a) /\
  upd_height u == Qmax 1 (h i).
Proof.
  unfold resize_unrotated, resize, deltaXPercent.
  cbn [includes Ascii.eqb Bool.eqb orb applyXChange upd_x upd_y upd_width upd_height
       newX newY newW newH].
  split; [|split; [|split]].
  - field. exact rect_width_nonzero.
  - unfold Qdiv. ring.
  - apply Q.max_compat; [reflexivity|]. field. exact rect_width_nonzero.
  - reflexivity.
Qed.

(** The east handle on an unrotated element: [x] moves by half the delta,
    the width grows by the whole delta. *)
Lemma east_resize_unrotated (i : InitialElementState) (startMousePos e : Point) :
  let u := resize_unrotated rect i "e" startMousePos e in
  let a := deltaXPercent rect startMousePos e in
  upd_x u == x i + a / 2 /\
  upd_y u == y i /\
  upd_width u == Qmax 1 (w i + a) /\
  upd_height u == Qmax 1 (h i).
Proof.
  unfold resize_unrotated, resize, deltaXPercent.
  cbn [includes Ascii.eqb Bool.eqb orb applyXChange upd_x upd_y upd_width upd_height
       newX newY newW newH].
  split; [|split; [|split]].
  - field. exact rect_width_nonzero.
  - unfold Qdiv. ring.
  - apply Q.max_compat; [reflexivity|]. field. exact rect_width_nonzero.
  - reflexivity.
Qed.

(** Above the minimum width, the west handle moves the east edge
    [x + width] by minus three halves of the delta. *)
Lemma west_resize_east_edge (i : InitialElementState) (startMousePos e : Point) :
  let u := resize_unrotated rect i "w" startMousePos e in
  let a := deltaXPercent rect startMousePos e in
  1 <= w i - a ->
  upd_x u + upd_width u == (x i + w i) - (3 # 2) * a.
Proof.
  intros u a Hmin.
  destruct (west_resize_unrotated i startMousePos e) as (Hx & _ & Hw & _).
  fold u in Hx, Hw. fold a in Hx, Hw.
  rewrite Hx, Hw, (Q.max_r _ _ Hmin). field.
Qed.

(** So the east edge stays where it was only when the pointer did not move
    along x. *)
Lemma west_resize_east_edge_fixed_iff (i : InitialElementState)
    (startMousePos e : Point) :
  let u := resize_unrotated rect i "w" startMousePos e in
  let a := deltaXPercent rect startMousePos e in
  1 <= w i - a ->
  (upd_x u + upd_width u == x i + w i <-> a == 0).
Proof.
  intros u a Hmin.
  pose proof (west_resize_east_edge i startMousePos e Hmin) as Hedge.
  fold u in Hedge. fold a in Hedge. rewrite Hedge.
  split; intros H; lra.
Qed.

(** Read with [x] as the centre of the box, the east handle keeps the
    opposite edge [x - width / 2] in place ... *)
Lemma east_resize_centred_west_edge (i : InitialElementState) (startMousePos e : Point) :
  let u := resize_unrotated rect i "e" startMousePos e in
  let a := deltaXPercent rect startMousePos e in
  1 <= w i + a ->
  upd_x u - upd_width u / 2 == x i - w i / 2.
Proof.
  intros u a Hmin.
  destruct (east_resize_unrotated i startMousePos e) as (Hx & _ & Hw & _).
  fold u in Hx, Hw. fold a in Hx, Hw.
  rewrite Hx, Hw, (Q.max_r _ _ Hmin). field.
Qed.

(** ... while the west handle moves its opposite edge [x + width / 2] by
    minus the delta. *)
Lemma west_resize_centred_east_edge (i : InitialElementState) (startMousePos e : Point) :
  let u := resize_unrotated rect i "w" startMousePos e in
  let a := deltaXPercent rect startMousePos e in
  1 <= w i - a ->
  upd_x u + upd_width u / 2 == (x i + w i / 2) - a.
Proof.
  intros u a Hmin.
  destruct (west_resize_unrotated i startMousePos e) as (Hx & _ & Hw & _).
  fold u in Hx, Hw. fold a in Hx, Hw.
  rewrite Hx, Hw, (Q.max_r _ _ Hmin). field.
Qed.

End GeometryProperties.

(** C1 (evaluation at the failing input): in a 400 px wide container, an
    unrotated box with x = 30 and width = 50 whose west handle is dragged
    100 px to the right ends at x = 17.5 with width 25: the east edge
    [x + width] moves from 80 to 42.5. *)
Theorem west_resize_moves_east_edge :
  let u := Geometry.resize_unrotated Scene.container Scene.box "w"
             Scene.pointerDown Scene.pointerNow in
  Geometry.upd_x u == 17.5 /\
  Geometry.upd_width u == 25 /\
  Geometry.x Scene.box + Geometry.w Scene.box == 80 /\
  Geometry.upd_x u + Geometry.upd_width u == 42.5 /\
  ~ Geometry.upd_x u + Geometry.upd_width u
      == Geometry.x Scene.box + Geometry.w Scene.box.
Proof.
  cbv zeta. split; [|split; [|split; [|split]]]; try (vm_compute; reflexivity).
  intros H. vm_compute in H. discriminate H.
Qed.

(* ===================================================================== *)
(** * Properties of the visual rendering *)
(* ===================================================================== *)

Section RenderProperties.

Import Render.

Lemma ElementType_eqb_eq (a b : ElementType) : ElementType_eqb a b = true <-> a = b.
Proof. destruct a, b; cbn; split; intros H; try reflexivity; discriminate. Qed.

(** When a descriptor is emitted, the element is inside its window, is not
    an audio element, and carries the computed transition. *)
Lemma render_some (t : Q) (sel : option string) (el : EditorElement.t) (style : Style) :
  renderVisualElement t sel el = Some style ->
  EditorElement.startTime el <= t /\
  t <= Double.add (EditorElement.startTime el) (EditorElement.duration el) /\
  EditorElement.type el <> AUDIO /\
  opacity style = fst (transition t el) /\
  transitionTransform style = snd (transition t el).
Proof.
  unfold renderVisualElement.
  destruct (Qlt_bool t (EditorElement.startTime el)) eqn:Hlo; [discriminate|].
  destruct (Qgt_bool t (Double.add (EditorElement.startTime el)
                                    (EditorElement.duration el))) eqn:Hhi;
    [discriminate|].
  cbn [orb].
  destruct (ElementType_eqb (EditorElement.type el) AUDIO) eqn:Haudio; [discriminate|].
  destruct (transition t el) as [o tr]. intros [= <-]. cbn.
  apply Qlt_bool_false_iff in Hlo. apply Qlt_bool_false_iff in Hhi.
  repeat split; auto.
  intros E. apply ElementType_eqb_eq in E. congruence.
Qed.

(** Nothing is emitted exactly for audio elements and outside the window. *)
Lemma render_none_iff (t : Q) (sel : option string) (el : EditorElement.t) :
  renderVisualElement t sel el = None <->
  EditorElement.type el = AUDIO \/
  t < EditorElement.startTime el \/
  Double.add (EditorElement.startTime el) (EditorElement.duration el) < t.
Proof.
  split.
  - destruct (renderVisualElement t sel el) as [style|] eqn:E; [discriminate|].
    intros _. revert E. unfold renderVisualElement.
    destruct (Qlt_bool t (EditorElement.startTime el)) eqn:Hlo.
    { apply Qlt_bool_iff in Hlo. auto. }
    destruct (Qgt_bool t (Double.add (EditorElement.startTime el)
                                      (EditorElement.duration el))) eqn:Hhi.
    { apply Qlt_bool_iff in Hhi. auto. }
    cbn [orb].
    destruct (ElementType_eqb (EditorElement.type el) AUDIO) eqn:Haudio.
    { apply ElementType_eqb_eq in Haudio. auto. }
    destruct (transition t el). discriminate.
  - intros H. destruct (renderVisualElement t sel el) as [style|] eqn:E; [|reflexivity].
    exfalso. apply render_some in E as (Hlo & Hhi & Hty & _).
    destruct H as [H|[H|H]]; [contradiction| |].
    + apply (Qlt_not_le _ _ H Hlo).
    + apply (Qlt_not_le _ _ H Hhi).
Qed.

(** C10 (as amended): an audio element gets no render descriptor at any
    time, active or not, and no element gets one at a time before
    [startTime] or after the double-precision sum [startTime + duration]
    that line 402 computes. *)
Theorem audio_and_inactive_not_rendered (t : Q) (sel : option string)
    (el : EditorElement.t) :
  EditorElement.type el = AUDIO \/
  t < EditorElement.startTime el \/
  Double.add (EditorElement.startTime el) (EditorElement.duration el) < t ->
  renderVisualElement t sel el = None.
Proof. apply render_none_iff. Qed.

Lemma insert_In (e x : EditorElement.t) (l : list EditorElement.t) :
  In x (insert e l) <-> x = e \/ In x l.
Proof.
  induction l as [|f l IH]; simpl.
  - intuition.
  - destruct (Qle_bool _ _); simpl; [intuition|].
    rewrite IH. intuition.
Qed.

Lemma sortByZIndex_In (x : EditorElement.t) (elements : list EditorElement.t) :
  In x (sortByZIndex elements) <-> In x elements.
Proof.
  unfold sortByZIndex. induction elements as [|e l IH]; simpl; [tauto|].
  rewrite insert_In, IH. intuition.
Qed.

(** Every descriptor of a frame comes from an element of the input that is
    not an audio element and is inside its window. *)
Lemma frame_descriptor_source (t : Q) (sel : option string)
    (elements : list EditorElement.t) (style : Style) :
  In style (frame t sel elements) ->
  exists el,
    In el elements /\
    renderVisualElement t sel el = Some style /\
    EditorElement.type el <> AUDIO /\
    EditorElement.startTime el <= t /\
    t <= Double.add (EditorElement.startTime el) (EditorElement.duration el).
Proof.
  unfold frame. intros Hin.
  apply list_elem_of_In, list_elem_of_omap in Hin as (el & Hel & Hr).
  apply list_elem_of_In in Hel. apply (proj1 (sortByZIndex_In _ _)) in Hel.
  exists el. destruct (render_some t sel el style Hr) as (Hlo & Hhi & Hty & _).
  repeat (split; [assumption|]). assumption.
Qed.

(** ** Overlapping transition windows *)

Lemma progress_lt_1 (a d : Q) : 0 <= a -> a < d -> a / d < 1.
Proof.
  intros Ha Hlt. apply Qlt_shift_div_r; lra.
Qed.

(** From the initial opacity the in branch never exceeds 1. *)
Lemma inBranch_opacity_le_1 (el : EditorElement.t) (elapsed : Q) :
  0 <= elapsed -> fst (transitionInBranch el elapsed initial) <= 1.
Proof.
  intros Hpos. unfold transitionInBranch, initial.
  destruct (EditorElement.transitionIn el) as [tr|]; [|cbn; lra].
  destruct (Qlt_bool elapsed (Transition.duration tr)) eqn:Hw; [|cbn; lra].
  apply Qlt_bool_iff in Hw.
  pose proof (progress_lt_1 _ _ Hpos Hw) as Hp.
  destruct (Transition.type tr); cbn [fst]; lra.
Qed.

Lemma Qmin_absorb_1 (o p : Q) : o <= 1 -> Qmin o p == Qmin o (Qmin 1 p).
Proof.
  intros Ho.
  destruct (Q.min_spec 1 p) as [[H1 ->]|[H1 ->]]; [|reflexivity].
  rewrite (Q.min_l o 1 Ho). apply Q.min_l. lra.
Qed.

(** The opacity after the out branch is the minimum of the opacity before
    it and the opacity the out branch gives from the initial value. *)
Lemma outBranch_opacity (el : EditorElement.t) (remaining : Q) (st : Q * Transform) :
  fst st <= 1 ->
  fst (transitionOutBranch el remaining st) ==
  Qmin (fst st) (fst (transitionOutBranch el remaining initial)).
Proof.
  intros Hle. unfold transitionOutBranch, initial.
  assert (Hid : fst st == Qmin (fst st) 1) by (symmetry; apply Q.min_l; exact Hle).
  destruct (EditorElement.transitionOut el) as [tr|]; [|exact Hid].
  destruct (Qlt_bool remaining (Transition.duration tr)); [|exact Hid].
  destruct (Transition.type tr); cbn [fst]; try exact Hid;
    apply Qmin_absorb_1; exact Hle.
Qed.

(** Inside the out window, the out branch replaces the transform for the
    zoom and wipe types and keeps the incoming one otherwise. *)
Lemma outBranch_transform (el : EditorElement.t) (remaining : Q) (st : Q * Transform)
    (tout : Transition.t) :
  EditorElement.transitionOut el = Some tout ->
  remaining < Transition.duration tout ->
  snd (transitionOutBranch el remaining st) =
    if setsTransform (Transition.type tout)
    then snd (transitionOutBranch el remaining initial)
    else snd st.
Proof.
  intros Hout Hw. unfold transitionOutBranch. rewrite Hout.
  apply Qlt_bool_iff in Hw. rewrite Hw.
  destruct (Transition.type tout); reflexivity.
Qed.

(** C7 (as amended): when the transition-in and the transition-out window
    both hold, the emitted opacity is the minimum of the in-branch and the
    out-branch opacities (a branch that assigns no opacity counting as 1).
    The emitted transform is the out branch's when the out type is a zoom
    or a wipe; when it is [fade], [dissolve] or [none] the out branch
    assigns no transform and the in branch's transform is emitted. *)
Theorem overlap_resolution (t : Q) (sel : option string) (el : EditorElement.t)
    (style : Style) (tin tout : Transition.t) :
  renderVisualElement t sel el = Some style ->
  EditorElement.transitionIn el = Some tin ->
  EditorElement.transitionOut el = Some tout ->
  elapsedTime t el < Transition.duration tin ->
  remainingTime t el < Transition.duration tout ->
  let inBranch := transitionInBranch el (elapsedTime t el) initial in
  let outBranch := transitionOutBranch el (remainingTime t el) initial in
  opacity style == Qmin (fst inBranch) (fst outBranch) /\
  transitionTransform style =
    if setsTransform (Transition.type tout) then snd outBranch else snd inBranch.
Proof.
  intros Hr Hin Hout Hwin Hwout inBranch outBranch.
  destruct (render_some t sel el style Hr) as (Hlo & _ & _ & Hop & Htr).
  rewrite Hop, Htr. unfold transition. fold inBranch.
  split.
  - apply outBranch_opacity. apply inBranch_opacity_le_1.
    unfold elapsedTime. apply sub_nonneg. exact Hlo.
  - apply outBranch_transform; assumption.
Qed.

End RenderProperties.

(** An active narration track renders nothing. *)
Lemma audio_and_inactive_not_rendered_witness :
  Sync.isActive 1 Scene.narration = true /\
  Render.renderVisualElement 1 None Scene.narration = None.
Proof.
  split; [reflexivity|].
  apply (audio_and_inactive_not_rendered 1 None Scene.narration).
  left. reflexivity.
Defined.

(** C10 (as stated) fails at the end of the window: the title that starts
    at 0.1 and lasts 1 (both as doubles) is, at [t = 1.1], past the exact
    sum [startTime + duration], and still gets a descriptor. *)
Lemma rendered_past_exact_window_end :
  let t := Double.lit 1.1 in
  let el := Scene.lateTitle in
  ~ (EditorElement.startTime el <= t /\
     t <= EditorElement.startTime el + EditorElement.duration el) /\
  EditorElement.startTime el + EditorElement.duration el < t /\
  is_Some (Render.renderVisualElement t None el).
Proof.
  cbv zeta. split; [|split].
  - intros [_ H]. vm_compute in H. apply H. reflexivity.
  - vm_compute. reflexivity.
  - eexists. vm_compute. reflexivity.
Qed.

(** C7 (as stated) fails for a zoom-in that overlaps a fade-out: at t = 2
    both windows of the title hold, the out branch computes no transform,
    and the emitted transform is the in branch's [scale]. *)
Lemma overlap_keeps_in_transform :
  Render.elapsedTime 2 Scene.title < 10 /\
  Render.remainingTime 2 Scene.title < 10 /\
  exists style,
    Render.renderVisualElement 2 None Scene.title = Some style /\
    Render.transitionTransform style = Render.scale (0.5 + 0.5 * ((2 - 0) / 10)) /\
    snd (Render.transitionOutBranch Scene.title (Render.remainingTime 2 Scene.title)
           Render.initial) = Render.no_transform /\
    Render.transitionTransform style <>
    snd (Render.transitionOutBranch Scene.title (Render.remainingTime 2 Scene.title)
           Render.initial).
Proof.
  split; [vm_compute; reflexivity|]. split; [vm_compute; reflexivity|].
  eexists. split; [vm_compute; reflexivity|].
  split; [vm_compute; reflexivity|]. split; [vm_compute; reflexivity|].
  vm_compute. discriminate.
Qed.

(** The overlap on the title: opacity 0.2, the in branch's transform. *)
Lemma overlap_resolution_witness :
  exists style,
    Render.renderVisualElement 2 None Scene.title = Some style /\
    Render.opacity style == 0.2 /\
    Render.transitionTransform style =
      snd (Render.transitionInBranch Scene.title (Render.elapsedTime 2 Scene.title)
             Render.initial).
Proof.
  eexists. split; [vm_compute; reflexivity|].
  destruct (overlap_resolution 2 None Scene.title _
              (Transition.mk zoom_in 10) (Transition.mk fade 10)
              ltac:(vm_compute; reflexivity) eq_refl eq_refl)
    as [Hop Htr]; [vm_compute; reflexivity | vm_compute; reflexivity |].
  split.
  - rewrite Hop. vm_compute. reflexivity.
  - exact Htr.
Defined.

(* ===================================================================== *)
(** * Further properties of the history manager *)
(* ===================================================================== *)

Section HistoryStacks.

Variable HistoryState : Type.
Variable JSON_stringify : HistoryState -> string.
Variable JSON_parse : string -> HistoryState.

Abbreviation Mgr := (History.HistoryManager HistoryState).
Abbreviation hpush := (History.push HistoryState JSON_stringify JSON_parse).
Abbreviation hundo := (History.undo HistoryState JSON_stringify JSON_parse).
Abbreviation hredo := (History.redo HistoryState JSON_stringify JSON_parse).
Abbreviation clone := (fun s => JSON_parse (JSON_stringify s)).

Lemma pop_snoc {A} (l : list A) (a : A) : History.Array_pop (l ++ [a]) = Some (l, a).
Proof.
  unfold History.Array_pop. rewrite reverse_snoc, reverse_involutive. reflexivity.
Qed.

Lemma pop_spec {A} (l : list A) :
  match History.Array_pop l with
  | None => l = []
  | Some (rest, a) => l = rest ++ [a]
  end.
Proof.
  unfold History.Array_pop. destruct (reverse l) as [|a r] eqn:Hr.
  - apply (f_equal reverse) in Hr. rewrite reverse_involutive in Hr. exact Hr.
  - rewrite <- (reverse_involutive l), Hr. apply reverse_cons.
Qed.

(** The undo stack after a push that records: the clone is appended, and
    the oldest entry is dropped when the stack was full. *)
Lemma push_records (h : Mgr) (s : HistoryState) :
  JSON_stringify s <> History.lastSavedState h ->
  hpush h s =
    {| History.undoStack :=
         (if Nat.ltb (length (History.undoStack h)) History.MAX_HISTORY_SIZE
          then History.undoStack h else tail (History.undoStack h))
         ++ [clone s];
       History.redoStack := [];
       History.lastSavedState := JSON_stringify s |}.
Proof.
  intros Hne. unfold History.push.
  destruct (String.eqb_spec (JSON_stringify s) (History.lastSavedState h)) as [E|_];
    [contradiction|].
  f_equal. rewrite length_app. cbn [length].
  unfold History.MAX_HISTORY_SIZE, History.Array_shift.
  destruct (Nat.ltb_spec 50 (length (History.undoStack h) + 1));
    destruct (Nat.ltb_spec (length (History.undoStack h)) 50); try lia; try reflexivity.
  destruct (History.undoStack h); [simpl in *; lia | reflexivity].
Qed.

(** X1: the bound "undo entries + redo entries <= 50" is kept by [push],
    [undo], [redo] and [clear]; in particular a push never leaves more
    than 50 entries on the undo stack. *)
Theorem capacity_invariant (h : Mgr) (s c : HistoryState) :
  Capacity.within h ->
  Capacity.within (hpush h s) /\
  Capacity.within (fst (hundo h c)) /\
  Capacity.within (fst (hredo h c)) /\
  Capacity.within (History.clear HistoryState h) /\
  (length (History.undoStack (hpush h s)) <= History.MAX_HISTORY_SIZE)%nat.
Proof.
  unfold Capacity.within, History.MAX_HISTORY_SIZE. intros Hin.
  assert (Hpush : (length (History.undoStack (hpush h s))
                   + length (History.redoStack (hpush h s)) <= 50)%nat).
  { destruct (String.eqb_spec (JSON_stringify s) (History.lastSavedState h)) as [E|E].
    - rewrite push_same_fingerprint by congruence. exact Hin.
    - rewrite push_records by exact E. cbn [History.undoStack History.redoStack length].
      rewrite length_app. cbn [length]. unfold History.MAX_HISTORY_SIZE.
      destruct (Nat.ltb_spec (length (History.undoStack h)) 50); [lia|].
      destruct (History.undoStack h); simpl in *; lia. }
  split; [exact Hpush|]. split; [|split; [|split]].
  - unfold History.undo. pose proof (pop_spec (History.undoStack h)) as Hp.
    destruct (History.Array_pop (History.undoStack h)) as [[rest r]|]; [|exact Hin].
    cbn [fst History.undoStack History.redoStack].
    rewrite Hp, length_app in Hin. rewrite length_app. simpl in *. lia.
  - unfold History.redo. pose proof (pop_spec (History.redoStack h)) as Hp.
    destruct (History.Array_pop (History.redoStack h)) as [[rest r]|]; [|exact Hin].
    cbn [fst History.undoStack History.redoStack].
    rewrite Hp, length_app in Hin. rewrite length_app. simpl in *. lia.
  - simpl. lia.
  - lia.
Qed.

(** X2: a push that records a state empties the redo stack, so the next
    [redo] gives the no-op signal and changes nothing. *)
Theorem push_invalidates_redo (h : Mgr) (s c : HistoryState) :
  JSON_stringify s <> History.lastSavedState h ->
  History.redoStack (hpush h s) = [] /\
  History.canRedo HistoryState (hpush h s) = false /\
  hredo (hpush h s) c = (hpush h s, None).
Proof.
  intros Hne. rewrite push_records by exact Hne.
  split; [reflexivity|]. split; reflexivity.
Qed.

(** X3: a push that records a state onto a full undo stack drops the
    oldest snapshot and keeps the others in order, the clone of the new
    state coming last. *)
Theorem push_evicts_oldest (h : Mgr) (s oldest : HistoryState)
    (others : list HistoryState) :
  History.undoStack h = oldest :: others ->
  length (History.undoStack h) = History.MAX_HISTORY_SIZE ->
  JSON_stringify s <> History.lastSavedState h ->
  History.undoStack (hpush h s) = others ++ [clone s].
Proof.
  intros Hstack Hfull Hne. rewrite push_records by exact Hne.
  cbn [History.undoStack]. rewrite Hfull, Nat.ltb_irrefl, Hstack. reflexivity.
Qed.

(** X4: [undo] gives the no-op signal exactly when [canUndo] is false, and
    then leaves the manager as it is; the same for [redo] and [canRedo]. *)
Theorem underflow_is_noop (h : Mgr) (c : HistoryState) :
  (snd (hundo h c) = None <-> History.canUndo HistoryState h = false) /\
  (snd (hredo h c) = None <-> History.canRedo HistoryState h = false) /\
  (snd (hundo h c) = None -> fst (hundo h c) = h) /\
  (snd (hredo h c) = None -> fst (hredo h c) = h).
Proof.
  unfold History.undo, History.redo, History.canUndo, History.canRedo.
  pose proof (pop_spec (History.undoStack h)) as Hu.
  pose proof (pop_spec (History.redoStack h)) as Hr.
  destruct (History.Array_pop (History.undoStack h)) as [[ru u]|];
    destruct (History.Array_pop (History.redoStack h)) as [[rr r]|];
    rewrite ?Hu, ?Hr, ?length_app; cbn [fst snd length];
    repeat split; intros H; try reflexivity; try discriminate;
    try (apply Nat.ltb_ge in H; lia).
Qed.

(** X5: [undo] followed by [redo] of the returned state puts both stacks
    back: the undo stack ends with the clone of the snapshot that was on
    top, the redo stack is the one before, and the fingerprint is that of
    the state handed to [undo]. *)
Theorem undo_redo_restores_stacks (h : Mgr) (c r : HistoryState)
    (rest : list HistoryState) :
  History.undoStack h = rest ++ [r] ->
  let h1 := fst (hundo h c) in
  let h2 := fst (hredo h1 r) in
  snd (hundo h c) = Some r /\
  History.undoStack h2 = rest ++ [clone r] /\
  History.redoStack h2 = History.redoStack h /\
  History.lastSavedState h2 = JSON_stringify (clone c).
Proof.
  intros Hstack. cbv zeta. unfold History.undo. rewrite Hstack, pop_snoc.
  cbn [fst snd]. unfold History.redo. cbn [History.redoStack History.undoStack].
  rewrite pop_snoc. cbn [fst History.undoStack History.redoStack History.lastSavedState].
  auto.
Qed.

(** X6: the state returned by [undo] or [redo] is the recorded
    fingerprint, so pushing it back records nothing and keeps the redo
    stack. *)
Theorem push_of_restored_state_is_noop (h h1 : Mgr) (c r : HistoryState) :
  hundo h c = (h1, Some r) \/ hredo h c = (h1, Some r) ->
  hpush h1 r = h1.
Proof.
  intros [H|H]; apply push_same_fingerprint.
  - unfold History.undo in H.
    destruct (History.Array_pop (History.undoStack h)) as [[rest p]|]; [|discriminate].
    injection H as <- <-. reflexivity.
  - unfold History.redo in H.
    destruct (History.Array_pop (History.redoStack h)) as [[rest p]|]; [|discriminate].
    injection H as <- <-. reflexivity.
Qed.

(** X7: below capacity, [undo] right after a push that recorded [s]
    returns the clone of [s], puts the undo stack back to what it was
    before the push, and leaves the clone of the current state as the only
    redo entry. *)
Theorem push_then_undo (h : Mgr) (s c : HistoryState) :
  (length (History.undoStack h) < History.MAX_HISTORY_SIZE)%nat ->
  JSON_stringify s <> History.lastSavedState h ->
  hundo (hpush h s) c =
    ({| History.undoStack := History.undoStack h;
        History.redoStack := [clone c];
        History.lastSavedState := JSON_stringify (clone s) |},
     Some (clone s)).
Proof.
  intros Hlt Hne. rewrite push_records by exact Hne.
  apply Nat.ltb_lt in Hlt. rewrite Hlt.
  unfold History.undo. cbn [History.undoStack History.redoStack].
  rewrite pop_snoc. reflexivity.
Qed.

End HistoryStacks.

(** The bound on the full manager. *)
Lemma capacity_invariant_witness :
  Capacity.within Revision.full /\
  Capacity.within (Revision.push Revision.full 51%nat).
Proof.
  split; [vm_compute; lia|].
  apply (capacity_invariant Revision.HistoryState Revision.JSON_stringify
           Revision.JSON_parse Revision.full 51%nat 0%nat).
  vm_compute; lia.
Defined.

(** After one undo on the full manager, pushing revision 99 clears redo. *)
Lemma push_invalidates_redo_witness :
  let h1 := fst (Revision.undo Revision.full 77%nat) in
  Revision.JSON_stringify 99%nat <> History.lastSavedState h1 /\
  History.redoStack h1 <> [] /\
  History.redoStack (Revision.push h1 99%nat) = [].
Proof.
  cbv zeta. split; [vm_compute; discriminate|]. split; [vm_compute; discriminate|].
  apply (push_invalidates_redo Revision.HistoryState Revision.JSON_stringify
           Revision.JSON_parse _ 99%nat 0%nat).
  vm_compute; discriminate.
Defined.

(** Revision 51 pushed onto the full manager: revision 1 is gone. *)
Lemma push_evicts_oldest_witness :
  History.undoStack (Revision.push Revision.full 51%nat) = seq 2 49 ++ [51%nat].
Proof.
  apply (push_evicts_oldest Revision.HistoryState Revision.JSON_stringify
           Revision.JSON_parse Revision.full 51%nat 1%nat (seq 2 49)).
  - vm_compute; reflexivity.
  - vm_compute; reflexivity.
  - vm_compute; discriminate.
Defined.

Lemma undo_redo_restores_stacks_witness :
  History.undoStack
    (fst (Revision.redo (fst (Revision.undo Revision.full 77%nat)) 50%nat))
  = seq 1 49 ++ [50%nat].
Proof.
  apply (undo_redo_restores_stacks Revision.HistoryState Revision.JSON_stringify
           Revision.JSON_parse Revision.full 77%nat 50%nat (seq 1 49)).
  vm_compute; reflexivity.
Defined.

Lemma push_of_restored_state_is_noop_witness :
  Revision.push (fst (Revision.undo Revision.full 77%nat)) 50%nat
  = fst (Revision.undo Revision.full 77%nat).
Proof.
  apply (push_of_restored_state_is_noop Revision.HistoryState Revision.JSON_stringify
           Revision.JSON_parse Revision.full _ 77%nat 50%nat).
  left. vm_compute; reflexivity.
Defined.

Lemma push_then_undo_witness :
  snd (Revision.undo (Revision.push History.empty 7%nat) 8%nat) = Some 7%nat.
Proof.
  unfold Revision.undo, Revision.push.
  rewrite (push_then_undo Revision.HistoryState Revision.JSON_stringify
             Revision.JSON_parse History.empty 7%nat 8%nat).
  - reflexivity.
  - vm_compute; lia.
  - vm_compute; discriminate.
Defined.

(* ===================================================================== *)
(** * Further properties of the synchronisation effect *)
(* ===================================================================== *)

Section SyncInvariants.

Import Sync.

(** ** Attach once *)

Lemma attach_known_source (browser : Browser) (refs : Refs) (el : Media.t) (id : string) :
  Media.node el ∈ audioSourcesRef refs -> attach browser refs el id = (refs, []).
Proof. intros Hin. unfold attach. destruct (decide _); [reflexivity | contradiction]. Qed.

Lemma attach_grows (browser : Browser) (refs : Refs) (el : Media.t) (id : string) :
  audioSourcesRef refs ⊆ audioSourcesRef (fst (attach browser refs el id)) /\
  dom (audioNodesRef refs) ⊆ dom (audioNodesRef (fst (attach browser refs el id))).
Proof.
  unfold attach. destruct (decide _); [split; reflexivity|].
  destruct (construction browser (Media.node el)); cbn [fst audioSourcesRef audioNodesRef];
    split; try reflexivity; try set_solver.
Qed.

Lemma updateNodes_grows (browser : Browser) (elements : list EditorElement.t) (element : EditorElement.t)
    (t : Q) (refs : Refs) (id : string) :
  audioContextRef (fst (updateNodes browser elements element t refs id)) = audioContextRef refs /\
  audioSourcesRef (fst (updateNodes browser elements element t refs id)) = audioSourcesRef refs /\
  dom (audioNodesRef refs) ⊆ dom (audioNodesRef (fst (updateNodes browser elements element t refs id))).
Proof.
  unfold updateNodes. destruct (audioNodesRef refs !! id); cbn; [|auto].
  split; [reflexivity|]. split; [reflexivity|]. set_solver.
Qed.

(** The refs after the callback, whatever the element's state. *)
Lemma syncElement_refs (browser : Browser) (t : Q) (isPlaying : bool)
    (elements : list EditorElement.t) (refs : Refs) (el : Media.t) (id : string)
    (element : EditorElement.t) :
  let refs' := fst (fst (syncElement browser t isPlaying elements refs el id element)) in
  refs' = refs \/
  (isActive t element = true /\ is_Some (audioContextRef refs) /\
   refs' = fst (updateNodes browser elements element t
                  (fst (attach browser refs
                          (fst (playPause browser isPlaying (fst (timeSync t element el)))) id)) id)).
Proof.
  cbv zeta. destruct (isActive t element) eqn:Hact.
  - destruct (syncElement_active browser t isPlaying elements refs el id element Hact)
      as (r & e & audio & Heq & _ & _ & Haudio).
    rewrite Heq. cbn [fst]. destruct (audioContextRef refs) eqn:Hctx.
    + right. destruct Haudio as [-> _]. split; [reflexivity|]. split; [eauto|reflexivity].
    + left. apply Haudio.
  - left. rewrite syncElement_inactive by exact Hact.
    destruct (Media.paused el); reflexivity.
Qed.

(** The callback never drops the context, a source or a route. *)
Lemma syncElement_grows (browser : Browser) (t : Q) (isPlaying : bool)
    (elements : list EditorElement.t) (refs : Refs) (el : Media.t) (id : string)
    (element : EditorElement.t) :
  let refs' := fst (fst (syncElement browser t isPlaying elements refs el id element)) in
  audioContextRef refs' = audioContextRef refs /\
  audioSourcesRef refs ⊆ audioSourcesRef refs' /\
  dom (audioNodesRef refs) ⊆ dom (audioNodesRef refs').
Proof.
  cbv zeta.
  destruct (syncElement_refs browser t isPlaying elements refs el id element)
    as [->|(_ & _ & ->)]; [split; [reflexivity|split; reflexivity]|].
  set (el2 := fst (playPause browser isPlaying (fst (timeSync t element el)))).
  destruct (updateNodes_grows browser elements element t (fst (attach browser refs el2 id)) id)
    as (Hc & Hs & Hd).
  destruct (attach_grows browser refs el2 id) as [Hs' Hd'].
  rewrite Hc, Hs, attach_context. split; [reflexivity|]. split; [exact Hs'|].
  etransitivity; eassumption.
Qed.

(** A handle that has a source is never constructed again. *)
Lemma known_source_no_attempt (browser : Browser) (t : Q) (isPlaying : bool)
    (elements : list EditorElement.t) (refs : Refs) (el : Media.t) (id : string)
    (element : EditorElement.t) :
  Media.node el ∈ audioSourcesRef refs ->
  Trace.attempts (snd (syncElement browser t isPlaying elements refs el id element)) = 0%nat.
Proof.
  intros Hin. apply count_zero_forall. intros c Hc.
  destruct (isActive t element) eqn:Hact.
  - destruct (syncElement_active browser t isPlaying elements refs el id element Hact)
      as (r & e & audio & Heq & _ & _ & Haudio).
    rewrite Heq in Hc. cbn [snd] in Hc.
    apply in_app_or in Hc as [Hc|Hc].
    { rewrite timeSync_cmds in Hc. destruct (Qgt_bool _ _); [|destruct Hc].
      destruct Hc as [<-|[]]. reflexivity. }
    apply in_app_or in Hc as [Hc|Hc].
    { apply playPause_cmds in Hc as [->| ->]; reflexivity. }
    apply in_app_or in Hc as [Hc|Hc]; [|destruct Hc as [<-|[]]; reflexivity].
    destruct (audioContextRef refs).
    + destruct Haudio as [_ ->].
      rewrite attach_known_source in Hc.
      * cbn [fst snd app] in Hc.
        apply updateNodes_cmds in Hc as [[v ->]|[[v ->]|[v ->]]]; reflexivity.
      * destruct (playPause_handle browser isPlaying (fst (timeSync t element el))) as [-> _].
        destruct (timeSync_handle t element el) as [-> _]. exact Hin.
    + destruct Haudio as (_ & -> & _).
      apply fallback_cmds in Hc as [[v ->]|[b ->]]; reflexivity.
  - rewrite syncElement_inactive in Hc by exact Hact.
    destruct (Media.paused el); [destruct Hc|]. destruct Hc as [<-|[]]. reflexivity.
Qed.

(** X9: when route construction succeeds for a handle without a source,
    the tick makes one attempt, records the source and a route under the
    element id, and no later run of the callback on that handle, whatever
    the browser answers, attempts construction again. *)
Theorem attach_once (browser : Browser) (t : Q) (isPlaying : bool)
    (elements : list EditorElement.t) (refs : Refs) (el : Media.t) (id : string)
    (element : EditorElement.t) :
  isActive t element = true ->
  is_Some (audioContextRef refs) ->
  Media.node el ∉ audioSourcesRef refs ->
  construction browser (Media.node el) = Constructed ->
  let r := syncElement browser t isPlaying elements refs el id element in
  Trace.attempts (snd r) = 1%nat /\
  Media.node el ∈ audioSourcesRef (fst (fst r)) /\
  is_Some (audioNodesRef (fst (fst r)) !! id) /\
  forall browser2 t2 isPlaying2 elements2 refs2 element2,
    audioSourcesRef (fst (fst r)) ⊆ audioSourcesRef refs2 ->
    Trace.attempts
      (snd (syncElement browser2 t2 isPlaying2 elements2 refs2 (snd (fst r)) id element2))
    = 0%nat.
Proof.
  intros Hact [ctx Hctx] Hsrc Hok r.
  destruct (syncElement_active browser t isPlaying elements refs el id element Hact)
    as (r' & e & audio & Heq & Hn & _ & Haudio).
  rewrite Hctx in Haudio. destruct Haudio as [Hr Ha].
  set (el2 := fst (playPause browser isPlaying (fst (timeSync t element el)))) in *.
  assert (Hn2 : Media.node el2 = Media.node el).
  { unfold el2. destruct (playPause_handle browser isPlaying (fst (timeSync t element el))) as [-> _].
    apply timeSync_handle. }
  assert (Hattach : attach browser refs el2 id =
            ({| audioContextRef := audioContextRef refs;
                audioSourcesRef := {[Media.node el]} ∪ audioSourcesRef refs;
                audioNodesRef := <[id := fresh_nodes]> (audioNodesRef refs) |},
             [CreateMediaElementSource (Media.node el)])).
  { unfold attach. rewrite Hn2. destruct (decide _); [contradiction|].
    rewrite Hok. reflexivity. }
  rewrite Hattach in Hr, Ha. cbn [fst snd] in Hr, Ha.
  destruct (updateNodes_grows browser elements element t
              {| audioContextRef := audioContextRef refs;
                 audioSourcesRef := {[Media.node el]} ∪ audioSourcesRef refs;
                 audioNodesRef := <[id := fresh_nodes]> (audioNodesRef refs) |} id)
    as (_ & Hs & Hd).
  rewrite <- Hr in Hs, Hd. cbn [audioSourcesRef audioNodesRef] in Hs, Hd.
  assert (Hin : Media.node el ∈ audioSourcesRef r').
  { rewrite Hs. apply elem_of_union_l, elem_of_singleton. reflexivity. }
  subst r. rewrite Heq. cbn [fst snd].
  split; [|split; [exact Hin|split]].
  - unfold Trace.attempts. rewrite !count_app, Ha, !count_app.
    rewrite (count_zero_forall Trace.isAttempt (snd (timeSync t element el))).
    2:{ intros c Hc. rewrite timeSync_cmds in Hc. destruct (Qgt_bool _ _); [|destruct Hc].
        destruct Hc as [<-|[]]. reflexivity. }
    rewrite (count_zero_forall Trace.isAttempt
               (snd (playPause browser isPlaying (fst (timeSync t element el))))).
    2:{ intros c Hc. apply playPause_cmds in Hc as [->| ->]; reflexivity. }
    rewrite (count_zero_forall Trace.isAttempt (snd (updateNodes _ _ _ _ _ _))).
    2:{ intros c Hc. apply updateNodes_cmds in Hc as [[v ->]|[[v ->]|[v ->]]]; reflexivity. }
    reflexivity.
  - apply elem_of_dom, Hd, elem_of_dom. rewrite lookup_insert_eq. eauto.
  - intros browser2 t2 isPlaying2 elements2 refs2 element2 Hsub.
    apply known_source_no_attempt. rewrite Hn. apply Hsub. exact Hin.
Qed.

End SyncInvariants.

Section SyncTick.

Import Sync.

(** ** Parameter writes *)

Lemma Qeq_bool_refl' (q : Q) : Qeq_bool q q = true.
Proof. apply Qeq_bool_iff. reflexivity. Qed.



(** ** The whole tick *)

(** The callback either skips the handle or runs [syncElement] on the
    element found for it. *)
Lemma syncMediaElement_cases (browser : Browser) (t : Q) (isPlaying : bool)
    (elements : list EditorElement.t) (refs : Refs) (el : Media.t) :
  (List.find (fun e => match Media.elementId el with
                       | Some id => String.eqb (EditorElement.id e) id
                       | None => false
                       end) elements = None /\
   syncMediaElement browser t isPlaying elements refs el = (refs, el, [])) \/
  (exists id element,
     Media.elementId el = Some id /\
     List.find (fun e => String.eqb (EditorElement.id e) id) elements = Some element /\
     syncMediaElement browser t isPlaying elements refs el =
     syncElement browser t isPlaying elements refs el id element).
Proof.
  unfold syncMediaElement. destruct (Media.elementId el) as [id|].
  - destruct (List.find _ elements) as [element|] eqn:Hf.
    + right. exists id, element. auto.
    + left. auto.
  - left. split; [|reflexivity]. induction elements; [reflexivity|]. exact IHelements.
Qed.

Lemma syncElement_handle (browser : Browser) (t : Q) (isPlaying : bool)
    (elements : list EditorElement.t) (refs : Refs) (el : Media.t) (id : string)
    (element : EditorElement.t) :
  Media.node (snd (fst (syncElement browser t isPlaying elements refs el id element)))
    = Media.node el /\
  Media.elementId (snd (fst (syncElement browser t isPlaying elements refs el id element)))
    = Media.elementId el.
Proof.
  destruct (isActive t element) eqn:Hact.
  - destruct (syncElement_active browser t isPlaying elements refs el id element Hact)
      as (r & e & audio & Heq & Hn & Hi & _).
    rewrite Heq. auto.
  - rewrite syncElement_inactive by exact Hact. destruct (Media.paused el); auto.
Qed.

(** X12: a tick returns the same handles in the same order: node and
    element id of each are kept, and a handle for which no element is
    found is returned exactly as it was. *)
Theorem tick_keeps_handles (browser : Browser) (t : Q) (isPlaying : bool)
    (elements : list EditorElement.t) (refs : Refs) (mediaElements : list Media.t) :
  Forall2
    (fun el el' =>
       Media.node el' = Media.node el /\
       Media.elementId el' = Media.elementId el /\
       (List.find (fun e => match Media.elementId el with
                            | Some id => String.eqb (EditorElement.id e) id
                            | None => false
                            end) elements = None -> el' = el))
    mediaElements
    (snd (fst (tick browser t isPlaying elements refs mediaElements))).
Proof.
  unfold tick.
  generalize (initAudioContext browser refs) as refs0. clear refs.
  intros refs0.
  destruct (forEach browser t isPlaying elements refs0 mediaElements)
    as [[refs1 ms] cmds] eqn:E. cbn [fst snd].
  revert refs0 refs1 ms cmds E.
  induction mediaElements as [|el rest IH]; intros refs0 refs1 ms cmds E; cbn [forEach] in E.
  - injection E as <- <- <-. constructor.
  - destruct (syncMediaElement browser t isPlaying elements refs0 el)
      as [[r1 el'] c1] eqn:E1.
    destruct (forEach browser t isPlaying elements r1 rest) as [[r2 rest'] c2] eqn:E2.
    injection E as <- <- <-. constructor; [|exact (IH _ _ _ _ E2)].
    destruct (syncMediaElement_cases browser t isPlaying elements refs0 el)
      as [[Hnone Heq]|(id & element & Hid & Hfind & Heq)]; rewrite Heq in E1.
    + injection E1 as <- <- <-. auto.
    + pose proof (syncElement_handle browser t isPlaying elements refs0 el id element)
        as [Hn Hi].
      rewrite E1 in Hn, Hi. cbn [fst snd] in Hn, Hi.
      split; [exact Hn|]. split; [exact Hi|].
      rewrite Hid, Hfind. discriminate.
Qed.

(** The refs after one callback: context kept, sources and routes only
    added. *)
Lemma syncMediaElement_grows (browser : Browser) (t : Q) (isPlaying : bool)
    (elements : list EditorElement.t) (refs : Refs) (el : Media.t) :
  let refs' := fst (fst (syncMediaElement browser t isPlaying elements refs el)) in
  audioContextRef refs' = audioContextRef refs /\
  audioSourcesRef refs ⊆ audioSourcesRef refs' /\
  dom (audioNodesRef refs) ⊆ dom (audioNodesRef refs').
Proof.
  cbv zeta.
  destruct (syncMediaElement_cases browser t isPlaying elements refs el)
    as [[_ ->]|(id & element & _ & _ & ->)].
  - cbn. split; [reflexivity|]. split; reflexivity.
  - apply syncElement_grows.
Qed.

(** X14: a tick creates the audio context at most once and never drops
    it, and it never removes a recorded source or route: the sources and
    the route ids before the tick are still there after it. *)
Theorem tick_keeps_routes (browser : Browser) (t : Q) (isPlaying : bool)
    (elements : list EditorElement.t) (refs : Refs) (mediaElements : list Media.t) :
  let refs' := fst (fst (tick browser t isPlaying elements refs mediaElements)) in
  audioContextRef refs' = audioContextRef (initAudioContext browser refs) /\
  (is_Some (audioContextRef refs) -> audioContextRef refs' = audioContextRef refs) /\
  audioSourcesRef refs ⊆ audioSourcesRef refs' /\
  dom (audioNodesRef refs) ⊆ dom (audioNodesRef refs').
Proof.
  cbv zeta. unfold tick.
  assert (Hinit : audioSourcesRef (initAudioContext browser refs) = audioSourcesRef refs /\
                  audioNodesRef (initAudioContext browser refs) = audioNodesRef refs /\
                  (is_Some (audioContextRef refs) ->
                   audioContextRef (initAudioContext browser refs) = audioContextRef refs)).
  { unfold initAudioContext. destruct (audioContextRef refs) eqn:Hc.
    - auto.
    - destruct (AudioContextClass browser); cbn; repeat split; auto;
        intros [x Hx]; congruence. }
  destruct Hinit as (Hs0 & Hn0 & Hc0).
  rewrite <- Hs0, <- Hn0.
  assert (Hloop : forall refs0,
    let r := forEach browser t isPlaying elements refs0 mediaElements in
    audioContextRef (fst (fst r)) = audioContextRef refs0 /\
    audioSourcesRef refs0 ⊆ audioSourcesRef (fst (fst r)) /\
    dom (audioNodesRef refs0) ⊆ dom (audioNodesRef (fst (fst r)))).
  { induction mediaElements as [|el rest IH]; intros refs0; cbn [forEach].
    - cbn. split; [reflexivity|]. split; reflexivity.
    - pose proof (syncMediaElement_grows browser t isPlaying elements refs0 el) as H1.
      destruct (syncMediaElement browser t isPlaying elements refs0 el)
        as [[r1 el'] c1].
      specialize (IH r1).
      destruct (forEach browser t isPlaying elements r1 rest) as [[r2 rest'] c2].
      cbn [fst snd] in *. destruct H1 as (Ha & Hb & Hc). destruct IH as (Ha' & Hb' & Hc').
      split; [congruence|]. split; etransitivity; eassumption. }
  specialize (Hloop (initAudioContext browser refs)).
  destruct (forEach browser t isPlaying elements (initAudioContext browser refs) mediaElements)
    as [[r ms] cmds].
  cbn [fst snd] in *. destruct Hloop as (Ha & Hb & Hc).
  split; [exact Ha|]. split; [|split; assumption].
  intros Hsome. rewrite Ha. apply Hc0. exact Hsome.
Qed.

(** Without a context the callback leaves the refs alone and sends
    nothing to the audio graph. *)
Lemma syncMediaElement_no_context (browser : Browser) (t : Q) (isPlaying : bool)
    (elements : list EditorElement.t) (refs : Refs) (el : Media.t) :
  audioContextRef refs = None ->
  fst (fst (syncMediaElement browser t isPlaying elements refs el)) = refs /\
  Trace.count Observe.isGraphCommand
    (snd (syncMediaElement browser t isPlaying elements refs el)) = 0%nat.
Proof.
  intros Hctx.
  destruct (syncMediaElement_cases browser t isPlaying elements refs el)
    as [[_ ->]|(id & element & _ & _ & ->)]; [auto|].
  destruct (isActive t element) eqn:Hact.
  - destruct (syncElement_active browser t isPlaying elements refs el id element Hact)
      as (r & e & audio & Heq & _ & _ & Haudio).
    rewrite Hctx in Haudio. destruct Haudio as (-> & -> & _). rewrite Heq.
    split; [reflexivity|]. apply count_zero_forall. intros c Hc. cbn [snd] in Hc.
    apply in_app_or in Hc as [Hc|Hc].
    { rewrite timeSync_cmds in Hc. destruct (Qgt_bool _ _); [|destruct Hc].
      destruct Hc as [<-|[]]. reflexivity. }
    apply in_app_or in Hc as [Hc|Hc].
    { apply playPause_cmds in Hc as [->| ->]; reflexivity. }
    apply in_app_or in Hc as [Hc|Hc]; [|destruct Hc as [<-|[]]; reflexivity].
    apply fallback_cmds in Hc as [[v ->]|[b ->]]; reflexivity.
  - rewrite syncElement_inactive by exact Hact.
    destruct (Media.paused el); split; reflexivity.
Qed.

(** X11: in a browser without an [AudioContext] class, a tick of a
    component that has no context leaves all three refs as they are and
    issues no command to the audio graph: no construction attempt, no
    warning, no filter or gain write, no resume. *)
Theorem tick_without_web_audio (browser : Browser) (t : Q) (isPlaying : bool)
    (elements : list EditorElement.t) (refs : Refs) (mediaElements : list Media.t) :
  AudioContextClass browser = false ->
  audioContextRef refs = None ->
  let r := tick browser t isPlaying elements refs mediaElements in
  fst (fst r) = refs /\
  Trace.count Observe.isGraphCommand (snd r) = 0%nat.
Proof.
  intros Hclass Hctx r. subst r. unfold tick.
  assert (Hinit : initAudioContext browser refs = refs).
  { unfold initAudioContext. rewrite Hctx, Hclass. reflexivity. }
  rewrite Hinit. unfold resumeContext. rewrite Hctx. cbn [app].
  assert (Hloop :
    fst (fst (forEach browser t isPlaying elements refs mediaElements)) = refs /\
    Trace.count Observe.isGraphCommand
      (snd (forEach browser t isPlaying elements refs mediaElements)) = 0%nat).
  { induction mediaElements as [|el rest IH]; cbn [forEach]; [auto|].
    pose proof (syncMediaElement_no_context browser t isPlaying elements refs el Hctx)
      as [H1 H2].
    destruct (syncMediaElement browser t isPlaying elements refs el) as [[r1 el'] c1].
    cbn [fst snd] in H1, H2. subst r1.
    destruct (forEach browser t isPlaying elements refs rest) as [[r2 rest'] c2].
    cbn [fst snd] in *. destruct IH as [-> IH2].
    split; [reflexivity|]. rewrite count_app, H2, IH2. reflexivity. }
  destruct (forEach browser t isPlaying elements refs mediaElements) as [[r ms] cmds].
  cbn [fst snd] in *. destruct Hloop as [-> Hz].
  split; [reflexivity | exact Hz].
Qed.

End SyncTick.

(** X13: the ducking source chosen for an element is an element of the
    input list other than the element itself (by id), of kind video or
    audio, with [ducking] set and active at the current time; when none is
    chosen, no element of the list qualifies.  So an element never ducks
    itself, and inactive or non-media elements never duck anything. *)
Theorem ducking_source_sound (elements : list EditorElement.t)
    (element : EditorElement.t) (t : Q) :
  match Sync.activeDuckingSource elements element t with
  | Some d =>
      In d elements /\
      EditorElement.id d <> EditorElement.id element /\
      (EditorElement.type d = VIDEO \/ EditorElement.type d = AUDIO) /\
      Props.ducking (EditorElement.props d) = Some true /\
      Sync.isActive t d = true
  | None =>
      forall e, In e elements -> Sync.isDuckingSource t element e = false
  end.
Proof.
  unfold Sync.activeDuckingSource.
  destruct (List.find (Sync.isDuckingSource t element) elements) as [d|] eqn:Hf.
  - apply List.find_some in Hf as [Hin Hd].
    apply isDuckingSource_iff in Hd. tauto.
  - intros e He. exact (List.find_none _ _ Hf e He).
Qed.

(** The clip in a browser where construction succeeds: one attempt, then
    none on the next run. *)
Lemma attach_once_witness :
  let refs := Sync.initAudioContext Scene.routable Sync.mounted in
  let r := Sync.syncElement Scene.routable 1 true [Scene.clip] refs
             (Scene.handle 0 "clip" 0 true) "clip" Scene.clip in
  Trace.attempts (snd r) = 1%nat /\
  Trace.attempts
    (snd (Sync.syncElement Scene.routable 2 true [Scene.clip] (fst (fst r)) (snd (fst r))
            "clip" Scene.clip)) = 0%nat.
Proof.
  cbv zeta.
  destruct (attach_once Scene.routable 1 true [Scene.clip]
              (Sync.initAudioContext Scene.routable Sync.mounted)
              (Scene.handle 0 "clip" 0 true) "clip" Scene.clip)
    as (H1 & _ & _ & Hlater).
  - reflexivity.
  - exists Sync.running. reflexivity.
  - apply not_elem_of_empty.
  - reflexivity.
  - split; [exact H1|]. apply Hlater. reflexivity.
Defined.


(** A tick in the browser without Web Audio. *)
Lemma tick_without_web_audio_witness :
  Trace.count Observe.isGraphCommand
    (snd (Sync.tick Scene.noWebAudio 1 true [Scene.clip] Sync.mounted
            [Scene.handle 0 "clip" 0 true])) = 0%nat.
Proof.
  apply (tick_without_web_audio Scene.noWebAudio 1 true [Scene.clip] Sync.mounted
           [Scene.handle 0 "clip" 0 true]); reflexivity.
Defined.

(* ===================================================================== *)
(** * Further properties of the pointer gestures *)
(* ===================================================================== *)

Section GestureProperties.

Variable rect : Geometry.Rect.

(** X15: in a container of non-zero size, whatever the handle, the
    rotation and the pointer position, a resize never makes the element
    narrower or lower than 1 percent. *)
Theorem resize_keeps_minimum_size (container : Geometry.Rect) (cos sin : Q)
    (i : Geometry.InitialElementState) (resizeHandle : string)
    (startMousePos e : Geometry.Point) :
  ~ Geometry.rect_width container == 0 ->
  ~ Geometry.rect_height container == 0 ->
  let u := Geometry.resize container cos sin i resizeHandle startMousePos e in
  1 <= Geometry.upd_width u /\ 1 <= Geometry.upd_height u.
Proof.
  intros _ _. cbv zeta. unfold Geometry.resize. cbn [Geometry.upd_width Geometry.upd_height].
  split; apply Q.le_max_l.
Qed.

(** X16: in a container of non-zero size, on an unrotated element the
    axes are independent: a handle
    without [e] and [w] leaves [x] and the width (clamped to 1) alone, and
    a handle without [n] and [s] leaves [y] and the height (clamped to 1)
    alone. *)
Theorem unrotated_axes_independent (i : Geometry.InitialElementState)
    (resizeHandle : string) (startMousePos e : Geometry.Point) :
  ~ Geometry.rect_width rect == 0 ->
  ~ Geometry.rect_height rect == 0 ->
  let u := Geometry.resize_unrotated rect i resizeHandle startMousePos e in
  (Geometry.includes "e" resizeHandle = false ->
   Geometry.includes "w" resizeHandle = false ->
   Geometry.upd_x u == Geometry.x i /\
   Geometry.upd_width u == Qmax 1 (Geometry.w i)) /\
  (Geometry.includes "s" resizeHandle = false ->
   Geometry.includes "n" resizeHandle = false ->
   Geometry.upd_y u == Geometry.y i /\
   Geometry.upd_height u == Qmax 1 (Geometry.h i)).
Proof.
  intros _ _. cbv zeta. unfold Geometry.resize_unrotated, Geometry.resize. split.
  - intros -> ->.
    destruct (Geometry.includes "s" resizeHandle), (Geometry.includes "n" resizeHandle);
      cbn [Geometry.applyYChange Geometry.upd_x Geometry.upd_width
           Geometry.newX Geometry.newW];
      (split; [unfold Qdiv; ring | reflexivity]).
  - intros -> ->.
    destruct (Geometry.includes "e" resizeHandle), (Geometry.includes "w" resizeHandle);
      cbn [Geometry.applyXChange Geometry.upd_y Geometry.upd_height
           Geometry.newY Geometry.newH];
      (split; [unfold Qdiv; ring | reflexivity]).
Qed.



End GestureProperties.

(** X18: releasing the pointer ends the gesture: after [handleMouseUp] no
    listener is registered and no pointer move reports an update, whatever
    the state was and wherever the pointer goes. *)
Theorem release_ends_gesture (trig : Q -> Q * Q) (container : option Geometry.Rect)
    (selectedElementId : option string) (st : Interaction.State) (e : Geometry.Point) :
  Interaction.listening (Interaction.handleMouseUp st) = false /\
  Interaction.onWindowMouseMove trig container selectedElementId
    (Interaction.handleMouseUp st) e = None /\
  Interaction.handleMouseMove trig container selectedElementId
    (Interaction.handleMouseUp st) e = None /\
  Interaction.onWindowMouseUp (Interaction.handleMouseUp st) = Interaction.handleMouseUp st.
Proof.
  unfold Interaction.onWindowMouseMove, Interaction.onWindowMouseUp,
    Interaction.handleMouseMove, Interaction.listening, Interaction.handleMouseUp.
  cbn. destruct container, selectedElementId; auto.
Qed.

Lemma resize_keeps_minimum_size_witness :
  1 <= Geometry.upd_width
         (Geometry.resize Scene.container 1 0 Scene.box "w" Scene.pointerDown
            (Geometry.mkPoint 2000 300)).
Proof.
  apply (resize_keeps_minimum_size Scene.container 1 0 Scene.box "w" Scene.pointerDown
           (Geometry.mkPoint 2000 300)); intros H; discriminate H.
Defined.

Lemma unrotated_axes_independent_witness :
  Geometry.upd_x
    (Geometry.resize_unrotated Scene.container Scene.box "s" Scene.pointerDown
       (Geometry.mkPoint 600 350)) == 30.
Proof.
  apply (unrotated_axes_independent Scene.container Scene.box "s" Scene.pointerDown
           (Geometry.mkPoint 600 350));
    try reflexivity; intros H; discriminate H.
Defined.



(* ===================================================================== *)
(** * Further properties of the visual rendering *)
(* ===================================================================== *)

Section RenderInvariants.

Import Render.

Lemma progress_ge_0 (a d : Q) : 0 <= a -> a < d -> 0 <= a / d.
Proof. intros Ha Hlt. apply Qle_shift_div_l; lra. Qed.

Lemma inBranch_opacity_ge_0 (el : EditorElement.t) (elapsed : Q) :
  0 <= elapsed -> 0 <= fst (transitionInBranch el elapsed initial).
Proof.
  intros Hpos. unfold transitionInBranch, initial.
  destruct (EditorElement.transitionIn el) as [tr|]; [|cbn; lra].
  destruct (Qlt_bool elapsed (Transition.duration tr)) eqn:Hw; [|cbn; lra].
  apply Qlt_bool_iff in Hw.
  pose proof (progress_ge_0 _ _ Hpos Hw) as Hp.
  destruct (Transition.type tr); cbn [fst]; lra.
Qed.

Lemma outBranch_opacity_bounds (el : EditorElement.t) (remaining : Q)
    (st : Q * Transform) :
  0 <= remaining -> 0 <= fst st ->
  0 <= fst (transitionOutBranch el remaining st) /\
  fst (transitionOutBranch el remaining st) <= fst st.
Proof.
  intros Hrem Hst. unfold transitionOutBranch.
  destruct (EditorElement.transitionOut el) as [tr|]; [|split; lra].
  destruct (Qlt_bool remaining (Transition.duration tr)) eqn:Hw; [|split; lra].
  apply Qlt_bool_iff in Hw.
  pose proof (progress_ge_0 _ _ Hrem Hw) as Hp.
  destruct (Transition.type tr); cbn [fst]; try (split; lra);
    (split; [apply Q.min_glb; assumption | apply Q.le_min_l]).
Qed.

(** X20: the opacity of every emitted descriptor lies between 0 and 1. *)
Theorem opacity_in_unit_interval (t : Q) (sel : option string) (el : EditorElement.t)
    (style : Style) :
  renderVisualElement t sel el = Some style ->
  0 <= opacity style /\ opacity style <= 1.
Proof.
  intros Hr. destruct (render_some t sel el style Hr) as (Hlo & Hhi & _ & Hop & _).
  rewrite Hop. unfold transition.
  assert (He : 0 <= elapsedTime t el) by (apply sub_nonneg; exact Hlo).
  assert (Hm : 0 <= remainingTime t el) by (apply sub_nonneg; exact Hhi).
  pose proof (inBranch_opacity_ge_0 el _ He) as H0.
  pose proof (inBranch_opacity_le_1 el _ He) as H1.
  destruct (outBranch_opacity_bounds el _ _ Hm H0) as [Ha Hb].
  split; [exact Ha | lra].
Qed.


(** ** Stacking order *)

Abbreviation zOf := (fun e : EditorElement.t => nullish (EditorElement.zIndex e) 0).

Lemma insert_Forall (P : EditorElement.t -> Prop) (e : EditorElement.t)
    (l : list EditorElement.t) :
  P e -> Forall P l -> Forall P (insert e l).
Proof.
  intros He Hl. induction Hl as [|f l Hf Hl IH]; cbn [insert].
  - constructor; [exact He | constructor].
  - destruct (Qle_bool _ _);
      [constructor; [exact He | constructor; assumption] | constructor; assumption].
Qed.

Lemma insert_sorted (e : EditorElement.t) (l : list EditorElement.t) :
  StronglySorted (fun a b => zOf a <= zOf b) l ->
  StronglySorted (fun a b => zOf a <= zOf b) (insert e l).
Proof.
  intros Hs. induction Hs as [|f l Hs IH Hf]; cbn [insert].
  - constructor; constructor.
  - destruct (Qle_bool (zOf e) (zOf f)) eqn:E.
    + apply Qle_bool_iff in E. constructor; [constructor; assumption|].
      constructor; [exact E|].
      eapply Forall_impl; [exact Hf|]. cbn. intros a Ha. lra.
    + constructor; [exact IH|].
      apply insert_Forall; [|exact Hf].
      destruct (Qlt_le_dec (zOf f) (zOf e)) as [Hlt|Hle]; [lra|].
      apply Qle_bool_iff in Hle. congruence.
Qed.

Lemma sortByZIndex_sorted (elements : list EditorElement.t) :
  StronglySorted (fun a b => zOf a <= zOf b) (sortByZIndex elements).
Proof.
  unfold sortByZIndex. induction elements as [|e l IH]; cbn [fold_right].
  - constructor.
  - apply insert_sorted. exact IH.
Qed.

Lemma render_zIndex (t : Q) (sel : option string) (el : EditorElement.t) (style : Style) :
  renderVisualElement t sel el = Some style -> zIndex style = 10 + zOf el.
Proof.
  unfold renderVisualElement.
  destruct (_ || _); [discriminate|].
  destruct (ElementType_eqb _ _); [discriminate|].
  destruct (transition t el). intros [= <-]. reflexivity.
Qed.

(** X23: the descriptors of a frame come in ascending stacking order:
    each one's [zIndex] is at most that of every later one. *)
Theorem frame_ascending (t : Q) (sel : option string) (elements : list EditorElement.t) :
  StronglySorted (fun a b => zIndex a <= zIndex b) (frame t sel elements).
Proof.
  unfold frame. pose proof (sortByZIndex_sorted elements) as Hs.
  induction Hs as [|e l Hs IH Hf]; cbn [omap list_omap].
  - constructor.
  - change (omap (renderVisualElement t sel) (e :: l)) with
      (match renderVisualElement t sel e with
       | Some y => y :: omap (renderVisualElement t sel) l
       | None => omap (renderVisualElement t sel) l
       end).
    destruct (renderVisualElement t sel e) as [style|] eqn:Hr; [|exact IH].
    constructor; [exact IH|].
    apply Forall_forall. intros s Hs'.
    apply list_elem_of_omap in Hs' as (f & Hfl & Hrf).
    rewrite (render_zIndex _ _ _ _ Hr), (render_zIndex _ _ _ _ Hrf).
    rewrite Forall_forall in Hf. specialize (Hf f Hfl). cbn in Hf. lra.
Qed.

Lemma insert_filter_key (k : Q) (e : EditorElement.t) (l : list EditorElement.t) :
  List.filter (fun a => Qeq_bool (zOf a) k) (insert e l) =
  List.filter (fun a => Qeq_bool (zOf a) k) (e :: l).
Proof.
  induction l as [|f l IH]; cbn [insert]; [reflexivity|].
  destruct (Qle_bool (zOf e) (zOf f)) eqn:E; [reflexivity|].
  cbn [List.filter] in *. rewrite IH.
  destruct (Qeq_bool (zOf e) k) eqn:Ee; [|reflexivity].
  destruct (Qeq_bool (zOf f) k) eqn:Ef; [|reflexivity].
  exfalso. apply Qeq_bool_iff in Ee, Ef.
  assert (Hle : zOf e <= zOf f) by lra.
  apply Qle_bool_iff in Hle. congruence.
Qed.

Lemma insert_Permutation (e : EditorElement.t) (l : list EditorElement.t) :
  Permutation (e :: l) (insert e l).
Proof.
  induction l as [|f l IH]; cbn [insert]; [reflexivity|].
  destruct (Qle_bool _ _); [reflexivity|].
  etransitivity; [apply perm_swap|]. apply perm_skip. exact IH.
Qed.

(** X24: the sort behind a frame is stable and loses nothing: the sorted
    list is a permutation of the input, ascending in [zIndex ?? 0], and the
    elements of any one stacking level come in their input order. *)
Theorem sortByZIndex_stable (elements : list EditorElement.t) :
  Permutation elements (sortByZIndex elements) /\
  StronglySorted (fun a b => zOf a <= zOf b) (sortByZIndex elements) /\
  forall k : Q,
    List.filter (fun a => Qeq_bool (zOf a) k) (sortByZIndex elements) =
    List.filter (fun a => Qeq_bool (zOf a) k) elements.
Proof.
  split; [|split; [apply sortByZIndex_sorted|]].
  - unfold sortByZIndex. induction elements as [|e l IH]; cbn [fold_right]; [reflexivity|].
    etransitivity; [apply perm_skip; exact IH | apply insert_Permutation].
  - intros k. unfold sortByZIndex.
    induction elements as [|e l IH]; cbn [fold_right]; [reflexivity|].
    rewrite insert_filter_key. cbn [List.filter]. rewrite IH. reflexivity.
Qed.

(** X25: a [video] tag is in the document only for a video element that
    is inside its window at the current time, whereas every audio element
    with a source has its [audio] tag at every time. *)
Theorem media_tags (t : Q) (sel : option string) (elements : list EditorElement.t) :
  (forall id, In id (Document.videoTags t sel elements) ->
     exists el, In el elements /\ EditorElement.id el = id /\
                EditorElement.type el = VIDEO /\ Document.hasSrc el = true /\
                Sync.isActive t el = true) /\
  (forall el, In el elements -> EditorElement.type el = AUDIO ->
     Document.hasSrc el = true ->
     In (EditorElement.id el) (Document.mediaTags t sel elements)).
Proof.
  split.
  - intros id Hin. unfold Document.videoTags in Hin.
    apply in_map_iff in Hin as (el & Hid & Hel).
    apply List.filter_In in Hel as [Hel Hp].
    apply (proj1 (sortByZIndex_In _ _)) in Hel.
    destruct (renderVisualElement t sel el) as [style|] eqn:Hr; [|discriminate].
    apply andb_true_iff in Hp as [Hty Hsrc].
    apply ElementType_eqb_eq in Hty.
    destruct (render_some t sel el style Hr) as (Hlo & Hhi & _).
    exists el. split; [exact Hel|]. split; [exact Hid|]. split; [exact Hty|].
    split; [exact Hsrc|].
    apply isActive_iff. split; assumption.
  - intros el Hel Hty Hsrc. unfold Document.mediaTags, Document.audioTags.
    apply in_or_app; left. apply in_map. apply List.filter_In. split; [exact Hel|].
    rewrite Hty, Hsrc. reflexivity.
Qed.

End RenderInvariants.

(** The title at t = 2. *)
Lemma opacity_in_unit_interval_witness :
  exists style,
    Render.renderVisualElement 2 None Scene.title = Some style /\
    0 <= Render.opacity style /\ Render.opacity style <= 1.
Proof.
  eexists. split; [vm_compute; reflexivity|].
  apply (opacity_in_unit_interval 2 None Scene.title). vm_compute; reflexivity.
Defined.


(* ===================================================================== *)
(** * Properties of what is stored *)
(* ===================================================================== *)

Lemma stripBlobSrc_src (el : EditorElement.t) (src : string) :
  Props.src (EditorElement.props (Storage.stripBlobSrc el)) = Some src ->
  String.prefix "blob:" src = false /\ Storage.stripBlobSrc el = el.
Proof.
  unfold Storage.stripBlobSrc.
  destruct (Props.src (EditorElement.props el)) as [s|] eqn:Hs; [|congruence].
  destruct (String.prefix "blob:" s) eqn:Hp; cbn; [discriminate|].
  rewrite Hs. intros [= <-]. auto.
Qed.

Lemma stripBlobSrc_id (el : EditorElement.t) :
  EditorElement.id (Storage.stripBlobSrc el) = EditorElement.id el.
Proof.
  unfold Storage.stripBlobSrc.
  destruct (Props.src (EditorElement.props el)) as [s|]; [|reflexivity].
  destruct (String.prefix "blob:" s); reflexivity.
Qed.

Lemma stripBlobSrc_idempotent (el : EditorElement.t) :
  Storage.stripBlobSrc (Storage.stripBlobSrc el) = Storage.stripBlobSrc el.
Proof.
  destruct (Props.src (EditorElement.props (Storage.stripBlobSrc el))) as [s|] eqn:Hs.
  - destruct (stripBlobSrc_src el s Hs) as [_ Heq]. rewrite Heq. exact Heq.
  - unfold Storage.stripBlobSrc at 1. rewrite Hs. reflexivity.
Qed.

(** X26: the elements prepared for saving are the input elements, one for
    one and in order, with the same ids; none of them carries a source
    that starts with [blob:]; an element whose source is absent or is not
    a blob URL is saved unchanged; and preparing a prepared list changes
    nothing. *)
Theorem blob_sources_stripped (elements : list EditorElement.t) :
  map EditorElement.id (Storage.elementsToSave elements) = map EditorElement.id elements /\
  (forall el src, In el (Storage.elementsToSave elements) ->
     Props.src (EditorElement.props el) = Some src -> String.prefix "blob:" src = false) /\
  (forall el, In el elements ->
     match Props.src (EditorElement.props el) with
     | Some src => String.prefix "blob:" src = false
     | None => True
     end -> Storage.stripBlobSrc el = el) /\
  Storage.elementsToSave (Storage.elementsToSave elements) = Storage.elementsToSave elements.
Proof.
  unfold Storage.elementsToSave. split; [|split; [|split]].
  - rewrite List.map_map. apply List.map_ext. exact stripBlobSrc_id.
  - intros el src Hin Hsrc. apply in_map_iff in Hin as (el0 & <- & _).
    apply (stripBlobSrc_src el0 src Hsrc).
  - intros el _ Hsrc. unfold Storage.stripBlobSrc.
    destruct (Props.src (EditorElement.props el)) as [s|]; [|reflexivity].
    rewrite Hsrc. reflexivity.
  - rewrite List.map_map. apply List.map_ext. exact stripBlobSrc_idempotent.
Qed.

(* ===================================================================== *)
(** * Properties of the waveform bars *)
(* ===================================================================== *)

Section WaveformProperties.

Import Waveform.

Variable data : list Q.
Variables step i : nat.

(** One step of the inner loop (lines 714-718). *)
Abbreviation scan :=
  (fun (acc : Q * Q) (j : nat) =>
     match data !! (i * step + j)%nat with
     | Some datum =>
         (if Qlt_bool datum (fst acc) then datum else fst acc,
          if Qgt_bool datum (snd acc) then datum else snd acc)
     | None => acc
     end).



(** With samples in [-1, 1] the minimum and maximum stay in [-1, 1]. *)
Lemma scan_range (js : list nat) (acc : Q * Q) :
  Forall (fun d => -1 <= d /\ d <= 1) data ->
  -1 <= fst acc <= 1 -> -1 <= snd acc <= 1 ->
  -1 <= fst (fold_left scan js acc) <= 1 /\ -1 <= snd (fold_left scan js acc) <= 1.
Proof.
  intros Hdata. revert acc. induction js as [|j js IH]; intros acc Hf Hs;
    cbn [fold_left]; [auto|].
  apply IH; cbn beta;
    destruct (data !! (i * step + j)%nat) as [d|] eqn:Hd; try assumption; cbn [fst snd].
  - destruct (Qlt_bool d (fst acc)); [|assumption].
    rewrite Forall_forall in Hdata. apply Hdata. eapply list_elem_of_lookup_2. exact Hd.
  - destruct (Qgt_bool d (snd acc)); [|assumption].
    rewrite Forall_forall in Hdata. apply Hdata. eapply list_elem_of_lookup_2. exact Hd.
Qed.

End WaveformProperties.

Section WaveformCanvas.

Import Waveform.




(** X29: with samples in [-1, 1] and a non-negative amplitude, one bar
    is drawn per pixel column, each at least 1 high and at most
    [max(1, 2 * amp)] high, and each starts inside the canvas, between 0
    and [2 * amp]. *)
Theorem bars_within_canvas (data : list Q) (rect_width rect_height height : Q) :
  Forall (fun d => -1 <= d /\ d <= 1) data ->
  0 <= ampOf height rect_height ->
  0 < rect_width ->
  let amp := ampOf height rect_height in
  let bars := draw data rect_width rect_height height in
  length bars = Z.to_nat (Qceiling rect_width) /\
  map bar_x bars = seq 0 (Z.to_nat (Qceiling rect_width)) /\
  Forall (fun b => 1 <= bar_h b /\ bar_h b <= Qmax 1 (2 * amp) /\
                   0 <= bar_y b /\ bar_y b <= 2 * amp) bars.
Proof.
  intros Hdata Hamp Hw amp bars. subst bars. unfold draw.
  apply Qlt_bool_iff in Hw. rewrite Hw.
  assert (Hbar : forall i, let b := bar data (stepOf data rect_width) amp i in
            bar_x b = i /\ 1 <= bar_h b /\ bar_h b <= Qmax 1 (2 * amp) /\
            0 <= bar_y b /\ bar_y b <= 2 * amp).
  { intros i. cbv zeta. unfold bar.
    pose proof (scan_range data (stepOf data rect_width) i
                  (seq 0 (stepOf data rect_width)) (1, -1) Hdata) as Hr.
    fold (chunk data (stepOf data rect_width) i) in Hr.
    destruct (chunk data (stepOf data rect_width) i) as [mn mx].
    cbn [fst snd] in Hr. destruct Hr as [[Ha Hb] [Hc Hd]]; [split; lra | split; lra |].
    cbn [bar_x bar_y bar_h]. fold amp in Hamp.
    split; [reflexivity|]. split; [apply Q.le_max_l|]. split.
    - apply Q.max_le_compat_l. apply Qmult_le_compat_r; lra.
    - split.
      + apply Qmult_le_0_compat; lra.
      + apply Qmult_le_compat_r; lra. }
  split; [rewrite length_map, length_seq; reflexivity|]. split.
  - rewrite List.map_map. rewrite <- (List.map_id (seq 0 _)) at 2.
    apply List.map_ext. intros i. apply Hbar.
  - apply Forall_forall. intros b Hb.
    apply list_elem_of_In, in_map_iff in Hb as (i & <- & _). apply Hbar.
Qed.

(** On a canvas without width nothing is drawn. *)
Lemma no_width_no_bars (data : list Q) (rect_width rect_height height : Q) :
  rect_width <= 0 -> draw data rect_width rect_height height = [].
Proof.
  intros Hw. unfold draw. apply Qlt_bool_false_iff in Hw. rewrite Hw. reflexivity.
Qed.

End WaveformCanvas.


Lemma bars_within_canvas_witness :
  length (Waveform.draw [0.5; -0.5; 0.25; 1; -1; 0] 4 40 40) = 4%nat.
Proof.
  apply (bars_within_canvas [0.5; -0.5; 0.25; 1; -1; 0] 4 40 40).
  - repeat constructor; intros H; discriminate H.
  - intros H; discriminate H.
  - reflexivity.
Defined.

(* ===================================================================== *)
(** * Properties of the transport clock *)
(* ===================================================================== *)

Section ClockProperties.

Import Clock.

Lemma Qfloor_unique (q : Q) (z : Z) :
  inject_Z z <= q -> q < inject_Z (z + 1) -> Qfloor q = z.
Proof.
  intros Hlo Hhi. apply Z.le_antisymm.
  - pose proof (Qfloor_le q) as Hf.
    assert (H : inject_Z (Qfloor q) < inject_Z (z + 1)) by lra.
    rewrite <- Zlt_Qlt in H. lia.
  - rewrite <- (Qfloor_Z z). apply Qfloor_resp_le. exact Hlo.
Qed.

Lemma Qfloor_div_60 (t : Q) : Qfloor (t / 60) = (Qfloor t / 60)%Z.
Proof.
  destruct t as [n d]. unfold Qdiv, Qmult, Qinv. cbn [Qnum Qden Qfloor].
  rewrite Z.mul_1_r, Pos2Z.inj_mul, Z.div_div by lia. reflexivity.
Qed.

Lemma floor_of_remainder (t : Q) :
  0 <= t -> Math_floor (remainder t 60) = (Qfloor t mod 60)%Z.
Proof.
  intros Ht. unfold Math_floor, remainder, Math_trunc.
  assert (Hq : 0 <= t / 60) by (apply Qle_shift_div_l; lra).
  apply Qle_bool_iff in Hq. rewrite Hq, Qfloor_div_60.
  rewrite Z.mod_eq by lia.
  set (m := (Qfloor t / 60)%Z).
  assert (Hm : 60 * inject_Z m == inject_Z (60 * m)).
  { rewrite inject_Z_mult. reflexivity. }
  pose proof (Qfloor_le t) as Hlo. pose proof (Qlt_floor t) as Hhi.
  apply Qfloor_unique.
  - rewrite Hm. unfold Z.sub. rewrite inject_Z_plus, inject_Z_opp. lra.
  - rewrite Hm.
    replace (Qfloor t - 60 * m + 1)%Z with ((Qfloor t + 1) + - (60 * m))%Z by lia.
    rewrite inject_Z_plus, inject_Z_opp. lra.
Qed.

Lemma two_digits (z : Z) :
  (0 <= z < 60)%Z -> String.length (padStart 2 "0" (toString z)) = 2%nat.
Proof.
  intros Hz.
  assert (Hall : forall n : nat, (n < 60)%nat ->
            String.length (padStart 2 "0" (toString (Z.of_nat n))) = 2%nat).
  { intros n Hn.
    do 60 (destruct n as [|n]; [vm_compute; reflexivity|]).
    lia. }
  rewrite <- (Z2Nat.id z) by lia. apply Hall. lia.
Qed.

(** X22: for a time that is not negative the clock shows the whole
    minutes, a colon, and the whole seconds of the minute on exactly two
    characters: with [s] the whole seconds elapsed, [s / 60] and
    [s mod 60]. *)
Theorem clock_text (t : Q) :
  0 <= t ->
  display t =
    (toString (Qfloor t / 60) ++ ":" ++ padStart 2 "0" (toString (Qfloor t mod 60)))%string
  /\ String.length (padStart 2 "0" (toString (Qfloor t mod 60))) = 2%nat
  /\ (0 <= Qfloor t mod 60 < 60)%Z.
Proof.
  intros Ht. unfold display.
  rewrite floor_of_remainder by exact Ht.
  unfold Math_floor. rewrite Qfloor_div_60.
  assert (Hm : (0 <= Qfloor t mod 60 < 60)%Z) by (apply Z.mod_pos_bound; lia).
  split; [reflexivity|]. split; [apply two_digits; exact Hm | exact Hm].
Qed.

End ClockProperties.

Lemma clock_text_witness : Clock.display 754.3 = "12:34".
Proof.
  destruct (clock_text 754.3) as [Hd _]; [intros H; discriminate H|].
  rewrite Hd. vm_compute. reflexivity.
Defined.
